(** * Shallow embedding of the rag-pipeline sources

    Modules follow the Python files:
    - [EmbedSparse]   : pinecone-embedding/src/rag_ingest/embed_sparse.py
    - [S3Loader]      : pinecone-embedding/src/rag_ingest/s3_loader.py
    - [Api]           : api.py
    - [LlmGeneration] : rag-query/llm_generation.py
    - [Config]        : rag-query/config.py

    External services (the embedding provider, object storage, the file
    system, the LLM, the retrieval pipelines) are parameters of the
    definitions; every Python-level control decision is written out. *)

From Stdlib Require Import ZArith QArith List String Ascii Bool Lia.
From Stdlib Require Import Numbers.DecimalString Sorting.Sorted Sorting.Permutation.
Import ListNotations.
Open Scope string_scope.
Set Warnings "-register-all".

(** A newline and a double quote, as one-character strings. *)
Definition nl : string := String (ascii_of_nat 10) EmptyString.
Definition dq : string := String (ascii_of_nat 34) EmptyString.

(** ** Shared Python-level helpers *)

(** [str(n)] for a Python [int]. *)
Definition py_str_int (n : Z) : string :=
  NilEmpty.string_of_int (Z.to_int n).

(** ** embed_sparse.py *)
Module EmbedSparse.

(** Exceptions that can travel through [embed_sparse]. *)
Inductive exn :=
| PineconeApiException (status : Z)
| OtherException (name : string)
| ColumnNotFoundError (col : string)
| ZeroDivisionError
| ValueError
| UnboundLocalError.

(** An item of the provider's answer: [item.sparse_indices],
    [item.sparse_values]. *)
Record item := mkItem { sparse_indices : list Z; sparse_values : list Q }.

(** The dict [{"indices": ..., "values": ...}] that is appended. *)
Record SparseEmbedding := mkSE { indices : list Z; values : list Q }.

(** One call of [pc.inference.embed]: raises or returns the items. *)
Definition outcome := (exn + list item)%type.

(** [pc.inference.embed(model=..., inputs=...)]: the n-th call made by the
    run, for a model and a batch of texts. *)
Definition provider_t := nat -> string -> list string -> outcome.

(** Observable effects: how many embed calls were made and every
    [time.sleep] duration, in order. *)
Record St := mkSt { calls : nat; sleeps : list Q }.

Definition sleep (d : Q) (st : St) : St :=
  mkSt (calls st) (sleeps st ++ [d])%list.

(** [time.sleep(secs)]: a negative duration raises [ValueError]. The
    retry loop calls [sleep] directly: its delays start at 1 and double,
    so they are never negative. *)
Definition time_sleep (d : Q) (st : St) : exn + St :=
  if Z.ltb (Qnum d) 0 then inl ValueError else inr (sleep d st).

Definition count_call (st : St) : St :=
  mkSt (S (calls st)) (sleeps st).

(** A polars DataFrame, column by column. *)
Definition DataFrame := list (string * list string).

(** [df[text_col].to_list()]. *)
Fixpoint column (df : DataFrame) (c : string) : exn + list string :=
  match df with
  | [] => inl (ColumnNotFoundError c)
  | (c', xs) :: rest => if String.eqb c c' then inr xs else column rest c
  end.

Definition max_retries : nat := 5.

(** [exc.status == 429 and attempt < max_retries - 1] (first handler) and
    [attempt < max_retries - 1] (second handler). *)
Definition should_retry (e : exn) (attempt : nat) : bool :=
  match e with
  | PineconeApiException status =>
      Z.eqb status 429 && Nat.ltb attempt (max_retries - 1)
  | _ => Nat.ltb attempt (max_retries - 1)
  end.

(** [for attempt in range(max_retries): try ... break except ...].
    [result] is the Python local of the same name: it keeps the value of
    the previous batch, and is unbound before the first batch. Falling off
    the end of the loop without [break] leaves it as it was. *)
Fixpoint retry_loop (provider : provider_t) (embed_model : string)
    (chunk_batch : list string) (attempts : list nat) (retry_delay : Q)
    (result : option (list item)) (st : St) : outcome * St :=
  match attempts with
  | [] =>
      match result with
      | Some r => (inr r, st)
      | None => (inl UnboundLocalError, st)
      end
  | attempt :: rest =>
      match provider (calls st) embed_model chunk_batch with
      | inr r => (inr r, count_call st)
      | inl e =>
          if should_retry e attempt
          then retry_loop provider embed_model chunk_batch rest
                 (retry_delay * inject_Z 2) result
                 (sleep retry_delay (count_call st))
          else (inl e, count_call st)
      end
  end.

Definition placeholder : SparseEmbedding := mkSE [0%Z] [1 # 1000].

(** The body of [for item in result]. *)
Definition to_record (it : item) : SparseEmbedding :=
  let sparse_embedding := mkSE (sparse_indices it) (sparse_values it) in
  if Nat.eqb (List.length (indices sparse_embedding)) 0
  then placeholder
  else sparse_embedding.

(** [range(0, n, step)]. *)
Definition py_range0 (n : nat) (step : Z) : exn + list nat :=
  if Z.eqb step 0 then inl ValueError
  else if Z.ltb step 0 then inr []
  else let b := Z.to_nat step in
       inr (map (fun k => (k * b)%nat) (seq 0 ((n + b - 1) / b)%nat)).

(** The outer batch loop: slice, retry loop, convert, sleep. *)
Fixpoint batch_loop (provider : provider_t) (embed_model : string)
    (all_chunks : list string) (batch_size : nat) (delay : Q)
    (starts : list nat) (result : option (list item)) (st : St)
    (acc : list SparseEmbedding) : (exn + list SparseEmbedding) * St :=
  match starts with
  | [] => (inr acc, st)
  | i :: rest =>
      let chunk_batch := firstn batch_size (skipn i all_chunks) in
      match retry_loop provider embed_model chunk_batch
              (seq 0 max_retries) 1 result st with
      | (inl e, st1) => (inl e, st1)
      | (inr r, st1) =>
          let acc' := (acc ++ map to_record r)%list in
          match time_sleep delay st1 with
          | inl e => (inl e, st1)
          | inr st2 => batch_loop provider embed_model all_chunks batch_size delay rest
                         (Some r) st2 acc'
          end
      end
  end.

Definition embed_sparse (provider : provider_t) (df : DataFrame)
    (text_col embed_model : string) (batch_size requests_per_minute : Z)
    (st : St) : (exn + list SparseEmbedding) * St :=
  match column df text_col with
  | inl e => (inl e, st)
  | inr all_chunks =>
      if Z.eqb requests_per_minute 0 then (inl ZeroDivisionError, st)
      else
        let delay_between_requests := inject_Z 60 / inject_Z requests_per_minute in
        match py_range0 (List.length all_chunks) batch_size with
        | inl e => (inl e, st)
        | inr starts =>
            batch_loop provider embed_model all_chunks (Z.to_nat batch_size)
              delay_between_requests starts None st []
        end
  end.

(** The default arguments of the Python signature. *)
Definition embed_sparse_default (provider : provider_t) (df : DataFrame)
    (st : St) : (exn + list SparseEmbedding) * St :=
  embed_sparse provider df "chunk_text" "pinecone-sparse-english-v0" 96 5 st.

End EmbedSparse.

(** ** s3_loader.py *)
Module S3Loader.

Inductive exn := FileNotFoundError (msg : string).

(** Where the rows of the returned frame come from; the frame is the
    vertical [pl.concat] of these files read with [pl.read_parquet], in
    this order. Read errors of polars or of the storage layer propagate
    untranslated and are not modelled. *)
Inductive frame_source :=
| LocalFile (path : string)
| S3Object (bucket key : string).

Inductive load_result :=
| Loaded (srcs : list frame_source)
| Raised (e : exn)
| Diverges. (** the [while True] listing loop did not stop within the fuel *)

(** [bucket.startswith(("/", ".", "~"))]. *)
Definition is_local (bucket : string) : bool :=
  String.prefix "/" bucket || String.prefix "." bucket || String.prefix "~" bucket.

Definition ends_with (suf s : string) : bool :=
  let n := String.length s in
  let m := String.length suf in
  Nat.leb m n && String.eqb (substring (n - m) m s) suf.

(** Truthiness of an [Optional[str]]. *)
Definition truthy (o : option string) : option string :=
  match o with
  | Some s => if String.eqb s "" then None else Some s
  | None => None
  end.

(** f-string rendering of an [Optional[str]]. *)
Definition py_str_opt (o : option string) : string :=
  match o with Some s => s | None => "None" end.

(** [os.path.join(a, b)] for two components. *)
Definition path_join (a b : string) : string :=
  if String.prefix "/" b then b
  else if String.eqb a "" || ends_with "/" a then a ++ b
  else a ++ "/" ++ b.

Fixpoint join_all (a : string) (comps : list string) : string :=
  match comps with
  | [] => a
  | c :: cs => join_all (path_join a c) cs
  end.

(** Python's [sorted] on [str]: ascending code-point order (for UTF-8
    bytes the byte order is the code-point order). *)
Fixpoint insert_sorted (x : string) (l : list string) : list string :=
  match l with
  | [] => [x]
  | y :: ys => if String.leb x y then x :: l else y :: insert_sorted x ys
  end.

Fixpoint sorted (l : list string) : list string :=
  match l with
  | [] => []
  | x :: xs => insert_sorted x (sorted xs)
  end.

(** The local file system as glob sees it. [entries_below d]: every
    entry below the directory [d] (files and directories, at any depth),
    as the list of its path components relative to [d], in
    directory-scan order. [glob_dirs pat]: the directories that
    [glob.glob(pat)] matches for a pattern [pat] holding a wildcard, in
    glob's order. *)
Record local_fs := mkFs {
  entries_below : string -> list (list string);
  glob_dirs : string -> list string }.

(** [glob.has_magic]: the string holds one of [*], [?] or [[]. *)
Definition has_magic (s : string) : bool :=
  existsb (fun c => Ascii.eqb c "*"%char || Ascii.eqb c "?"%char || Ascii.eqb c "["%char)
    (list_ascii_of_string s).

(** Names that glob's wildcards do not match (without [include_hidden]). *)
Definition hidden (name : string) : bool := String.prefix "." name.

(** An entry matched by the pattern [base/**/*.parquet] with
    [recursive=True]: [**] crosses zero or more non-hidden directories,
    [*.parquet] matches a non-hidden name ending in [.parquet]. *)
Fixpoint glob_match (rel : list string) : bool :=
  match rel with
  | [] => false
  | [name] => negb (hidden name) && ends_with ".parquet" name
  | d :: rest => negb (hidden d) && glob_match rest
  end.

(** [glob.glob(os.path.join(base, "**", "*.parquet"), recursive=True)]:
    a base without wildcard is used as it is; a base with one is first
    expanded to the directories it matches, and each is searched in turn. *)
Definition glob_parquet (fs : local_fs) (base : string) : list string :=
  let dirs := if has_magic base then glob_dirs fs base else [base] in
  flat_map (fun d => map (join_all d) (filter glob_match (entries_below fs d))) dirs.

(** One [list_objects_v2] answer: ["Contents"] (absent or the keys),
    ["IsTruncated"] and ["NextContinuationToken"]. *)
Record list_response := mkResp {
  contents : option (list string);
  is_truncated : option bool;
  next_token : option string }.

(** [s3_client.list_objects_v2(Bucket=..., Prefix=..., ContinuationToken=...)]
    with the optional keys present or not. *)
Definition lister := string -> option string -> option string -> list_response.

(** The [while True] paging loop, with fuel standing for its iterations. *)
Fixpoint list_pages (fuel : nat) (list_objects_v2 : lister) (bucket : string)
    (prefix : option string) (continuation_token : option string)
    (parquet_files : list string) : option (exn + list string) :=
  match fuel with
  | O => None
  | S fuel' =>
      let response := list_objects_v2 bucket (truthy prefix) (truthy continuation_token) in
      match contents response with
      | None =>
          Some (inl (FileNotFoundError
            ("No parquet files found in S3://" ++ bucket ++ "/" ++ py_str_opt prefix)))
      | Some keys =>
          let parquet_files' := (parquet_files ++ filter (ends_with ".parquet") keys)%list in
          if match is_truncated response with Some b => b | None => false end
          then list_pages fuel' list_objects_v2 bucket prefix (next_token response) parquet_files'
          else Some (inr parquet_files')
      end
  end.

(** The local [base]: [os.path.expanduser(bucket)], joined with a truthy
    [prefix]. *)
Definition local_base (expanduser : string -> string) (bucket : string)
    (prefix : option string) : string :=
  let base := expanduser bucket in
  match truthy prefix with Some p => path_join base p | None => base end.

(** [load_parquet_from_s3(bucket, prefix, single_key)]; [expanduser] is
    [os.path.expanduser] of the running process. *)
Definition load_parquet_from_s3 (fuel : nat) (expanduser : string -> string)
    (fs : local_fs) (list_objects_v2 : lister) (bucket : string)
    (prefix single_key : option string) : load_result :=
  if is_local bucket then
    let base := local_base expanduser bucket prefix in
    match truthy single_key with
    | Some k => Loaded [LocalFile (path_join base k)]
    | None =>
        let parquet_files := glob_parquet fs base in
        match parquet_files with
        | [] => Raised (FileNotFoundError ("No parquet files found in " ++ base))
        | _ => Loaded (map LocalFile (sorted parquet_files))
        end
    end
  else
    match truthy single_key with
    | Some k => Loaded [S3Object bucket k]
    | None =>
        match list_pages fuel list_objects_v2 bucket prefix None [] with
        | None => Diverges
        | Some (inl e) => Raised e
        | Some (inr []) =>
            Raised (FileNotFoundError
              ("No parquet files found in S3://" ++ bucket ++ "/" ++ py_str_opt prefix))
        | Some (inr parquet_files) => Loaded (map (S3Object bucket) parquet_files)
        end
    end.

End S3Loader.

(** ** api.py *)
Module Api.

(** A parsed JSON value; objects are Python dicts, so their keys are
    distinct and [lookup] of the first binding is [dict.get]. *)
Inductive json :=
| JNull
| JBool (b : bool)
| JNum (q : Q)
| JStr (s : string)
| JArr (xs : list json)
| JObj (fields : list (string * json)).

Fixpoint lookup (fields : list (string * json)) (k : string) : option json :=
  match fields with
  | [] => None
  | (k', v) :: rest => if String.eqb k k' then Some v else lookup rest k
  end.

(** [data.get(k, default)]. *)
Definition dict_get (fields : list (string * json)) (k : string) (default : json) : json :=
  match lookup fields k with Some v => v | None => default end.

(** [RAGPipeline(use_reranking=...)]. *)
Record RAGPipeline := mkPipeline { use_reranking : bool }.

Definition baseline_pipeline : RAGPipeline := mkPipeline false.
Definition hybrid_pipeline : RAGPipeline := mkPipeline true.

(** [pipeline.run(query_text, filters)] returns [(llm_output, retrieved_chunks)]. *)
Definition runner := RAGPipeline -> json -> json -> json * json.

(** [mode == 'hybrid'] for any JSON value. *)
Definition is_hybrid (mode : json) : bool :=
  match mode with JStr s => String.eqb s "hybrid" | _ => false end.

Inductive error := AttributeError.

(** The [/query] handler; [data] is [request.json]. A body that is not a
    JSON object has no [.get]. *)
Definition query (run : runner) (data : json) : error + json :=
  match data with
  | JObj fields =>
      let query_text := dict_get fields "query" (JStr "") in
      let filters := dict_get fields "filters" (JObj []) in
      let mode := dict_get fields "mode" (JStr "hybrid") in
      let pipeline := if is_hybrid mode then hybrid_pipeline else baseline_pipeline in
      let '(llm_output, retrieved_chunks) := run pipeline query_text filters in
      inr (JObj [("response", llm_output); ("chunks", retrieved_chunks); ("mode", mode)])
  | _ => inl AttributeError
  end.

End Api.

(** ** config.py *)
Module Config.

(** [os.environ] at import time. *)
Definition environ := list (string * string).

Fixpoint getenv (env : environ) (k default : string) : string :=
  match env with
  | [] => default
  | (k', v) :: rest => if String.eqb k k' then v else getenv rest k default
  end.

(** The class attributes that [validate] reads, fixed when the module is
    imported. *)
Record Config := mkConfig { PINECONE_API_KEY : string; ANTHROPIC_API_KEY : string }.

Definition load (env : environ) : Config :=
  mkConfig (getenv env "PINECONE_API_KEY" "") (getenv env "ANTHROPIC_API_KEY" "").

Inductive exn := ValueError (msg : string).

(** [Config.validate()]: [if not cls.X: raise ValueError(...)]. *)
Definition validate (cls : Config) : exn + unit :=
  if String.eqb (PINECONE_API_KEY cls) "" then
    inl (ValueError "PINECONE_API_KEY environment variable is not set")
  else if String.eqb (ANTHROPIC_API_KEY cls) "" then
    inl (ValueError "ANTHROPIC_API_KEY environment variable is not set")
  else inr tt.

Definition CLAUDE_MODEL : string := "claude-haiku-4-5-20251001".
Definition MAX_NEW_TOKENS : Z := 1024.

(** The working directory as [os.makedirs] sees it: its entries, each a
    directory or a file, and whether a new directory can be created in it
    (write permission on a writable file system). *)
Inductive entry := Dir | File.

Record cwd := mkCwd { entries : list (string * entry); can_create : bool }.

Fixpoint entry_in (es : list (string * entry)) (name : string) : option entry :=
  match es with
  | [] => None
  | (n, k) :: rest => if String.eqb name n then Some k else entry_in rest name
  end.

Definition entry_of (fs : cwd) (name : string) : option entry := entry_in (entries fs) name.

(** [FileExistsError], or the [OSError] of a failed [mkdir]
    ([PermissionError], or [EROFS] on a read-only file system). *)
Inductive os_error := FileExistsError (path : string) | OSError (path : string).

Definition OUTPUT_DIR : string := "outputs".

(** [os.makedirs(name, exist_ok=True)] for a name of one component
    relative to the working directory: an existing directory is kept, an
    existing file raises [FileExistsError], otherwise the directory is
    created, or [mkdir] fails with [OSError] when it cannot be. *)
Definition makedirs_exist_ok (name : string) (fs : cwd) : os_error + cwd :=
  match entry_of fs name with
  | Some Dir => inr fs
  | Some File => inl (FileExistsError name)
  | None =>
      if can_create fs then inr (mkCwd ((name, Dir) :: entries fs) (can_create fs))
      else inl (OSError name)
  end.

(** [Config.get_output_path(filename)]. *)
Definition get_output_path (fs : cwd) (filename : string) : (os_error + string) * cwd :=
  match makedirs_exist_ok OUTPUT_DIR fs with
  | inl e => (inl e, fs)
  | inr fs' => (inr (S3Loader.path_join OUTPUT_DIR filename), fs')
  end.

End Config.

(** ** llm_generation.py *)
Module LlmGeneration.

(** A metadata value: a string, or any other value with its [str()]. *)
Inductive pyval :=
| PStr (s : string)
| POther (rendered : string).

(** f-string rendering [{v}]. *)
Definition py_str (v : pyval) : string :=
  match v with PStr s => s | POther r => r end.

Definition metadata_t := list (string * pyval).

Fixpoint lookup (d : metadata_t) (k : string) : option pyval :=
  match d with
  | [] => None
  | (k', v) :: rest => if String.eqb k k' then Some v else lookup rest k
  end.

(** [d.get(k, default)]. *)
Definition get (d : metadata_t) (k : string) (default : pyval) : pyval :=
  match lookup d k with Some v => v | None => default end.

(** [d.get(k) == 'Y']: [None] and non-strings never equal ['Y']. *)
Definition is_Y (o : option pyval) : bool :=
  match o with Some (PStr s) => String.eqb s "Y" | _ => false end.

(** One retrieved match: its optional ['metadata'] dict and optional
    ['score'] number (a float, i.e. an exact rational). *)
Record RetrievalMatch := mkMatch {
  metadata : option metadata_t;
  score : option Q }.

(** Round a non-negative [a / b] to an integer, ties to even. *)
Definition round_half_even (a : Z) (b : positive) : Z :=
  let q0 := (a / Z.pos b)%Z in
  let r := (a mod Z.pos b)%Z in
  match Z.compare (2 * r) (Z.pos b) with
  | Lt => q0
  | Gt => q0 + 1
  | Eq => if Z.even q0 then q0 else q0 + 1
  end%Z.

Fixpoint zeros (n : nat) : string :=
  match n with O => "" | S n' => "0" ++ zeros n' end.

Definition left_pad_zeros (width : nat) (s : string) : string :=
  zeros (width - String.length s) ++ s.

(** [f"{x:.4f}"] of an exactly represented number: correctly rounded to
    four decimals, ties to even, with the sign kept for negative input. *)
Definition format_4f (x : Q) : string :=
  let m := round_half_even (Z.abs (Qnum x) * 10000) (Qden x) in
  (if Z.ltb (Qnum x) 0 then "-" else "")
    ++ py_str_int (m / 10000) ++ "." ++ left_pad_zeros 4 (py_str_int (m mod 10000)).

(** The [tags] list built by the four [if metadata.get(...) == 'Y'] tests. *)
Definition tags_of (md : metadata_t) : list string :=
  let tags := [] in
  let tags := if is_Y (lookup md "obligation") then (tags ++ ["Obligation"])%list else tags in
  let tags := if is_Y (lookup md "penalty") then (tags ++ ["Penalty"])%list else tags in
  let tags := if is_Y (lookup md "permission") then (tags ++ ["Permission"])%list else tags in
  let tags := if is_Y (lookup md "prohibition") then (tags ++ ["Prohibition"])%list else tags in
  tags.

(** The text appended for the match at 0-based position [i] of
    [enumerate(matches_to_process)]. (The [print] to stdout is not
    modelled.) *)
Definition render_match (i : nat) (m : RetrievalMatch) : string :=
  let md := match metadata m with Some d => d | None => [] end in
  let sc := match score m with Some q => q | None => 0 end in
  let chunk_text := py_str (get md "text" (PStr "N/A")) in
  let state := py_str (get md "state" (PStr "N/A")) in
  let county := py_str (get md "county" (PStr "N/A")) in
  let section := py_str (get md "section" (PStr "N/A")) in
  let tags := tags_of md in
  let context_string := "[Chunk " ++ py_str_int (Z.of_nat (i + 1)) ++ "]" ++ nl in
  let context_string := context_string ++ "Score: " ++ format_4f sc ++ nl in
  let context_string := context_string ++ "State: " ++ state ++ nl in
  let context_string := context_string ++ "County: " ++ county ++ nl in
  let context_string := context_string ++ "Section: " ++ section ++ nl in
  let context_string :=
    match tags with
    | [] => context_string
    | _ => context_string ++ "Tags: " ++ String.concat ", " tags ++ nl
    end in
  context_string ++ "Text: " ++ dq ++ chunk_text ++ dq ++ nl ++ nl.

(** [xs[:k]] for a Python [int] [k]: a negative [k] counts from the end. *)
Definition py_slice_to {A} (xs : list A) (k : Z) : list A :=
  if Z.leb 0 k then firstn (Z.to_nat k) xs
  else firstn (Z.to_nat (Z.of_nat (List.length xs) + k)) xs.

Fixpoint context_loop (i : nat) (ms : list RetrievalMatch) (context_string : string) : string :=
  match ms with
  | [] => context_string
  | m :: rest => context_loop (S i) rest (context_string ++ render_match i m)
  end.

Definition build_context_string (retrieved_chunks : list RetrievalMatch)
    (max_chunks : option Z) : string :=
  match retrieved_chunks with
  | [] => "No documents were retrieved."
  | _ =>
      let matches_to_process :=
        match max_chunks with
        | None => retrieved_chunks
        | Some k => py_slice_to retrieved_chunks k
        end in
      context_loop 0 matches_to_process ""
  end.

Inductive exn := AnthropicError (msg : string) | IndexError.

(** [anthropic.Anthropic(api_key=...).messages.create(model, max_tokens,
    system, messages)]: raises, or returns the texts of [message.content]. *)
Definition messages_create_t :=
  string -> string -> Z -> string -> list (string * string) -> exn + list string.

Definition system_prompt : string :=
  String.concat nl
    [ "";
      "    You are a highly intelligent program evaluation analyst with a scientific background. Your goal is to help a ";
      "    user understand the scientific research your organization has funded.";
      "    You will be given the user's original question and a list of 'Retrieved Chunks' from the organization's database.";
      "";
      "    Your task is to generate a natural language response. You MUST follow these rules:";
      "    1. Base your answer *ONLY* on the information inside the " ++ dq ++ "Retrieved Chunks" ++ dq
        ++ ". Do not use any outside knowledge.";
      "    Do your best to answer the question based solely on the information provided. Let the user know if you need further";
      "    information to provide a better answer.";
      "  " ].

Definition user_prompt (query_text context_string : string) : string :=
  nl ++ "    **User's Question:**" ++ nl ++ "    " ++ query_text ++ nl ++ nl
  ++ "    **Retrieved Chunks:**" ++ nl ++ "    " ++ context_string ++ nl ++ "  ".

(** [generate_llm_response(query_text, context_string)]:
    [message.content[0].text]. *)
Definition generate_llm_response (messages_create : messages_create_t) (cfg : Config.Config)
    (query_text context_string : string) : exn + string :=
  match messages_create (Config.ANTHROPIC_API_KEY cfg) Config.CLAUDE_MODEL
          Config.MAX_NEW_TOKENS system_prompt [("user", user_prompt query_text context_string)] with
  | inl e => inl e
  | inr [] => inl IndexError
  | inr (text :: _) => inr text
  end.

Definition filter_only_system_prompt : string :=
  String.concat nl
    [ "";
      "    You are a highly intelligent legal analyst.";
      "    You will be given a *sample* of the top-retrieved legal documents.";
      "    Your task is to **provide a high-level summary of the main themes** found in this sample.";
      "";
      "    - DO NOT try to answer a question.";
      "    - DO NOT say " ++ dq ++ "I cannot find an answer." ++ dq;
      "    - Simply summarize what you see. Group similar topics together.";
      "    - Start your response with: " ++ dq
        ++ "The documents in this sample primarily discuss..." ++ dq;
      "  " ].

Definition filter_only_user_prompt (context_string : string) : string :=
  nl ++ "    **Retrieved Chunks (Sample):**" ++ nl ++ "    " ++ context_string ++ nl ++ "  ".

Definition generate_llm_response_filter_only_search
    (messages_create : messages_create_t) (cfg : Config.Config)
    (query_text context_string : string) (num_total_chunks : Z) : exn + string :=
  let user_prompt := filter_only_user_prompt context_string in
  match messages_create (Config.ANTHROPIC_API_KEY cfg) Config.CLAUDE_MODEL
          Config.MAX_NEW_TOKENS filter_only_system_prompt [("user", user_prompt)] with
  | inl e => inl e
  | inr [] => inl IndexError
  | inr (response_text :: _) =>
      inr ("Found " ++ py_str_int num_total_chunks ++ " laws matching your filters. "
           ++ "A full list is available in the generated CSV file." ++ nl ++ nl
           ++ "Here is a quick summary of the first 10 results:" ++ nl ++ nl
           ++ response_text)
  end.

End LlmGeneration.

(** * Properties *)

(** ** embed_sparse *)
Module EmbedSparseFacts.
Import EmbedSparse.
Local Open Scope nat_scope.

(** The sleeps of a retry loop that starts at [retry_delay = d] and fails
    [n] times in a row. *)
Fixpoint backoff (d : Q) (n : nat) : list Q :=
  match n with
  | O => []
  | S n' => d :: backoff (d * inject_Z 2)%Q n'
  end.

(** Failures that the two [except] handlers retry when attempts remain:
    a rate-limit [PineconeApiException] and every non-Pinecone exception. *)
Definition retryable (e : exn) : bool :=
  match e with
  | PineconeApiException status => Z.eqb status 429
  | _ => true
  end.

Lemma should_retry_retryable e a :
  retryable e = true -> a < max_retries - 1 -> should_retry e a = true.
Proof.
  intros Hr Ha. apply Nat.ltb_lt in Ha.
  destruct e; simpl in *; rewrite ?Hr, ?Ha; reflexivity.
Qed.

Lemma should_retry_stop e a :
  retryable e = false \/ a = max_retries - 1 -> should_retry e a = false.
Proof.
  intros [Hr | ->].
  - destruct e; simpl in *; try discriminate. rewrite Hr. reflexivity.
  - destruct e; simpl; try reflexivity. apply andb_false_r.
Qed.

Section RetryLoop.
Variables (provider : provider_t) (model : string) (batch : list string)
          (result : option (list item)).

Lemma retry_loop_success a rest d st r :
  provider (calls st) model batch = inr r ->
  retry_loop provider model batch (a :: rest) d result st = (inr r, count_call st).
Proof. intros H. simpl. rewrite H. reflexivity. Qed.

Lemma retry_loop_retry a rest d st e :
  provider (calls st) model batch = inl e -> should_retry e a = true ->
  retry_loop provider model batch (a :: rest) d result st
  = retry_loop provider model batch rest (d * inject_Z 2)%Q result
      (sleep d (count_call st)).
Proof. intros H Hs. simpl. rewrite H, Hs. reflexivity. Qed.

Lemma retry_loop_raise a rest d st e :
  provider (calls st) model batch = inl e -> should_retry e a = false ->
  retry_loop provider model batch (a :: rest) d result st = (inl e, count_call st).
Proof. intros H Hs. simpl. rewrite H, Hs. reflexivity. Qed.

(** After [k] retried failures, the [k]-th attempt decides the loop. *)
Lemma retry_loop_after k : forall a n d st,
  k < n ->
  (forall j, j < k -> exists e,
      provider (j + calls st) model batch = inl e /\ should_retry e (a + j) = true) ->
  (forall r, provider (k + calls st) model batch = inr r ->
     retry_loop provider model batch (seq a n) d result st
     = (inr r, mkSt (S k + calls st) (sleeps st ++ backoff d k)%list)) /\
  (forall e, provider (k + calls st) model batch = inl e ->
     should_retry e (a + k) = false ->
     retry_loop provider model batch (seq a n) d result st
     = (inl e, mkSt (S k + calls st) (sleeps st ++ backoff d k)%list)).
Proof.
  induction k as [|k IH]; intros a n d st Hk Hfail;
    (destruct n as [|n]; [lia|]); simpl seq.
  - split.
    + intros r Hr. rewrite (retry_loop_success _ _ _ _ r Hr).
      unfold count_call. simpl. rewrite app_nil_r. reflexivity.
    + intros e He Hs. rewrite Nat.add_0_r in Hs.
      rewrite (retry_loop_raise _ _ _ _ e He Hs).
      unfold count_call. simpl. rewrite app_nil_r. reflexivity.
  - destruct (Hfail 0 ltac:(lia)) as (e0 & He0 & Hs0).
    rewrite Nat.add_0_r in Hs0.
    rewrite (retry_loop_retry _ _ _ _ e0 He0 Hs0).
    set (st' := sleep d (count_call st)).
    assert (Hcalls : calls st' = S (calls st)) by reflexivity.
    assert (Hfail' : forall j, j < k -> exists e,
      provider (j + calls st') model batch = inl e /\ should_retry e (S a + j) = true).
    { intros j Hj. destruct (Hfail (S j) ltac:(lia)) as (e & He & Hs).
      exists e. replace (j + calls st') with (S j + calls st) by (rewrite Hcalls; lia).
      replace (S a + j) with (a + S j) by lia. split; assumption. }
    destruct (IH (S a) n (d * inject_Z 2)%Q st' ltac:(lia) Hfail') as [IHok IHerr].
    rewrite Hcalls in IHok, IHerr.
    replace (k + S (calls st)) with (S k + calls st) in IHok, IHerr by lia.
    replace (S k + S (calls st)) with (S (S k) + calls st) in IHok, IHerr by lia.
    replace (S a + k) with (a + S k) in IHerr by lia.
    assert (Hst : (sleeps st' ++ backoff (d * inject_Z 2)%Q k)%list
                  = (sleeps st ++ backoff d (S k))%list).
    { simpl. rewrite <- app_assoc. reflexivity. }
    split.
    + intros r Hr. rewrite (IHok r Hr), Hst. reflexivity.
    + intros e He Hs. rewrite (IHerr e He Hs), Hst. reflexivity.
Qed.

End RetryLoop.

Lemma backoff_schedule k :
  k < max_retries -> backoff 1%Q k = firstn k [1; 2; 4; 8]%Q.
Proof.
  intros Hk. unfold max_retries in Hk.
  do 5 (destruct k as [|k]; [reflexivity|]). lia.
Qed.

Lemma flat_map_map_distr {A B C} (g : B -> C) (h : A -> list B) (xs : list A) :
  flat_map (fun x => map g (h x)) xs = map g (flat_map h xs).
Proof.
  induction xs as [|x xs IH]; simpl; [reflexivity|].
  rewrite map_app, IH. reflexivity.
Qed.

(** The slices [l[i:i+b]] for [i] in [range(j*b, (j+m)*b, b)] cover the
    suffix from [j*b] when the range reaches the end of [l]. *)
Lemma slices_cover {A} (b : nat) (l : list A) : forall m j,
  List.length l <= (j + m) * b ->
  flat_map (fun i => firstn b (skipn i l)) (map (fun k => k * b) (seq j m))
  = skipn (j * b) l.
Proof.
  induction m as [|m IH]; intros j Hlen; simpl.
  - rewrite skipn_all2; [reflexivity|]. rewrite Nat.add_0_r in Hlen. exact Hlen.
  - rewrite IH by (replace (S j + m) with (j + S m) by lia; exact Hlen).
    rewrite <- (firstn_skipn b (skipn (j * b) l)) at 2.
    rewrite skipn_skipn. reflexivity.
Qed.

Lemma range_reaches_end (n b : nat) :
  0 < b -> n <= ((n + b - 1) / b) * b.
Proof.
  intros Hb.
  pose proof (Nat.div_mod (n + b - 1) b ltac:(lia)) as Hdm.
  pose proof (Nat.mod_upper_bound (n + b - 1) b ltac:(lia)) as Hmod.
  lia.
Qed.

Lemma to_record_indices_nonempty it : indices (to_record it) <> [].
Proof. destruct it as [[|x xs] vs]; simpl; discriminate. Qed.

(** A positive rate gives a non-negative pause between batches. *)
Lemma delay_nonneg rpm :
  (0 < rpm)%Z -> Z.ltb (Qnum (inject_Z 60 / inject_Z rpm)) 0 = false.
Proof. intros H. destruct rpm as [|p|p]; [lia | reflexivity | lia]. Qed.

Section Pointwise.
Variables (provider : provider_t) (model : string) (f : string -> item).
Hypothesis provider_pointwise : forall n texts, provider n model texts = inr (map f texts).

Lemma batch_loop_pointwise all_chunks b delay :
  Z.ltb (Qnum delay) 0 = false -> forall starts result st acc,
  fst (batch_loop provider model all_chunks b delay starts result st acc)
  = inr (acc ++ flat_map (fun i => map (fun t => to_record (f t))
                                      (firstn b (skipn i all_chunks))) starts)%list.
Proof.
  intros Hd. induction starts as [|i starts IH]; intros result st acc; simpl.
  - rewrite app_nil_r. reflexivity.
  - rewrite provider_pointwise. unfold time_sleep. rewrite Hd.
    rewrite IH, map_map, app_assoc. reflexivity.
Qed.

End Pointwise.

(** C1 (as amended). For one batch of [embed_sparse], with [k < 5]
    earlier attempts that failed with a rate-limit [PineconeApiException]
    (status 429) or a non-Pinecone exception: if attempt [k] succeeds its
    items are used; if attempt [k] raises a [PineconeApiException] of
    another status, or it is the 5th attempt, that exception is re-raised.
    Either way exactly [k+1] calls were made and the sleeps were the first
    [k] of 1s, 2s, 4s, 8s. *)
Theorem embed_retry_policy provider model batch result st k :
  k < max_retries ->
  (forall j, j < k -> exists e,
      provider (j + calls st) model batch = inl e /\ retryable e = true) ->
  (forall r, provider (k + calls st) model batch = inr r ->
     retry_loop provider model batch (seq 0 max_retries) 1 result st
     = (inr r, mkSt (S k + calls st) (sleeps st ++ firstn k [1; 2; 4; 8]%Q)%list)) /\
  (forall e, provider (k + calls st) model batch = inl e ->
     retryable e = false \/ k = max_retries - 1 ->
     retry_loop provider model batch (seq 0 max_retries) 1 result st
     = (inl e, mkSt (S k + calls st) (sleeps st ++ firstn k [1; 2; 4; 8]%Q)%list)).
Proof.
  intros Hk Hfail.
  rewrite <- (backoff_schedule k Hk).
  assert (Hfail' : forall j, j < k -> exists e,
    provider (j + calls st) model batch = inl e /\ should_retry e (0 + j) = true).
  { intros j Hj. destruct (Hfail j Hj) as (e & He & Hr). exists e.
    split; [exact He|]. apply should_retry_retryable; [exact Hr | lia]. }
  destruct (retry_loop_after provider model batch result k 0 max_retries 1%Q st Hk Hfail')
    as [Hok Herr].
  split; [exact Hok|].
  intros e He Hstop. apply Herr; [exact He|]. apply should_retry_stop. exact Hstop.
Qed.

Lemma embed_retry_policy_witness :
  let p : provider_t := fun _ _ _ => inl (PineconeApiException 429) in
  retry_loop p "m" ["a"] (seq 0 max_retries) 1 None (mkSt 0 [])
  = (inl (PineconeApiException 429), mkSt 5 [1; 2; 4; 8]%Q).
Proof.
  intros p.
  apply (proj2 (embed_retry_policy p "m" ["a"] None (mkSt 0 []) 4
                  ltac:(unfold max_retries; lia)
                  (fun j _ => ex_intro _ (PineconeApiException 429) (conj eq_refl eq_refl))))
    ; [reflexivity | right; reflexivity].
Defined.

(** C1 fails as stated: a [PineconeApiException] whose status is not 429
    (here 500) is re-raised by [embed_sparse] after a single call, with no
    sleep and no retry, while any other exception is retried 5 times. *)
Lemma embed_non_rate_limit_not_retried :
  embed_sparse (fun _ _ _ => inl (PineconeApiException 500))
    [("chunk_text", ["a"])] "chunk_text" "pinecone-sparse-english-v0" 96 5 (mkSt 0 [])
  = (inl (PineconeApiException 500), mkSt 1 [])
  /\ embed_sparse (fun _ _ _ => inl (OtherException "ConnectionError"))
    [("chunk_text", ["a"])] "chunk_text" "pinecone-sparse-english-v0" 96 5 (mkSt 0 [])
  = (inl (OtherException "ConnectionError"), mkSt 5 [1; 2; 4; 8]%Q).
Proof. split; vm_compute; reflexivity. Qed.

(** C2. When the provider embeds each text of a batch on its own (item
    [f t] for text [t]), [embed_sparse] with a positive batch size and a
    positive rate over a column of [N] texts
    returns [N] records, the one of text [t] being [f t] converted: the
    placeholder [{indices:[0], values:[0.001]}] when [f t] has no index,
    [f t] unchanged otherwise; no record has an empty index list. *)
Theorem embed_sparse_records (f : string -> item) provider df text_col model
    batch_size requests_per_minute st texts :
  column df text_col = inr texts ->
  (0 < batch_size)%Z ->
  (0 < requests_per_minute)%Z ->
  (forall n b, provider n model b = inr (map f b)) ->
  fst (embed_sparse provider df text_col model batch_size requests_per_minute st)
    = inr (map (fun t => to_record (f t)) texts)
  /\ List.length (map (fun t => to_record (f t)) texts) = List.length texts
  /\ (forall t, sparse_indices (f t) = [] -> to_record (f t) = placeholder)
  /\ (forall t, sparse_indices (f t) <> [] ->
        to_record (f t) = mkSE (sparse_indices (f t)) (sparse_values (f t)))
  /\ Forall (fun r => indices r <> []) (map (fun t => to_record (f t)) texts).
Proof.
  intros Hcol Hbs Hrpm Hp.
  split; [|split; [|split; [|split]]].
  - unfold embed_sparse. rewrite Hcol.
    rewrite (proj2 (Z.eqb_neq requests_per_minute 0) ltac:(lia)).
    unfold py_range0.
    assert (Hne : Z.eqb batch_size 0 = false) by (apply Z.eqb_neq; lia).
    assert (Hlt : Z.ltb batch_size 0 = false) by (apply Z.ltb_ge; lia).
    rewrite Hne, Hlt.
    rewrite (batch_loop_pointwise provider model f Hp _ _ _ (delay_nonneg _ Hrpm)). simpl.
    rewrite flat_map_map_distr, slices_cover, Nat.mul_0_l, skipn_O; [reflexivity|].
    apply range_reaches_end. lia.
  - apply length_map.
  - intros t H. unfold to_record. simpl. rewrite H. reflexivity.
  - intros t H. unfold to_record. simpl.
    destruct (sparse_indices (f t)); [contradiction | reflexivity].
  - apply Forall_forall. intros r Hin. apply in_map_iff in Hin.
    destruct Hin as (t & <- & _). apply to_record_indices_nonempty.
Qed.

Lemma embed_sparse_records_witness :
  let f t := mkItem (if String.eqb t "" then [] else [7%Z]) [1%Q] in
  fst (embed_sparse (fun _ _ b => inr (map f b)) [("chunk_text", ["a"; ""; "c"])]
         "chunk_text" "pinecone-sparse-english-v0" 2 5 (mkSt 0 []))
  = inr [mkSE [7%Z] [1%Q]; placeholder; mkSE [7%Z] [1%Q]].
Proof.
  intros f.
  exact (proj1 (embed_sparse_records f (fun _ _ b => inr (map f b))
                  [("chunk_text", ["a"; ""; "c"])] "chunk_text" "pinecone-sparse-english-v0"
                  2 5 (mkSt 0 []) ["a"; ""; "c"] eq_refl ltac:(lia) ltac:(lia)
                  (fun _ _ => eq_refl))).
Defined.

End EmbedSparseFacts.

(** ** The /query handler *)
Module ApiFacts.
Import Api.

Lemma is_hybrid_spec mode : is_hybrid mode = true <-> mode = JStr "hybrid".
Proof.
  destruct mode; simpl; split; intros H; try discriminate.
  - apply String.eqb_eq in H. subst. reflexivity.
  - injection H as ->. reflexivity.
Qed.

(** C3. For a JSON-object body, [/query] runs the hybrid pipeline exactly
    when [data.get('mode', 'hybrid')] is the string ["hybrid"] (which it
    is when the field is absent), the baseline pipeline for every other
    value, and answers with that same mode value. *)
Theorem query_mode_selection (run : runner) (fields : list (string * json)) :
  let mode := dict_get fields "mode" (JStr "hybrid") in
  let query_text := dict_get fields "query" (JStr "") in
  let filters := dict_get fields "filters" (JObj []) in
  exists pipeline,
    query run (JObj fields)
      = inr (JObj [("response", fst (run pipeline query_text filters));
                   ("chunks", snd (run pipeline query_text filters));
                   ("mode", mode)])
    /\ (pipeline = hybrid_pipeline <-> mode = JStr "hybrid")
    /\ (pipeline = baseline_pipeline <-> mode <> JStr "hybrid")
    /\ (lookup fields "mode" = None -> mode = JStr "hybrid").
Proof.
  intros mode query_text filters.
  exists (if is_hybrid mode then hybrid_pipeline else baseline_pipeline).
  split; [|split; [|split]].
  - unfold query. fold mode query_text filters.
    destruct (run _ query_text filters). reflexivity.
  - rewrite <- is_hybrid_spec.
    destruct (is_hybrid mode); split; intros H; try reflexivity; discriminate.
  - rewrite <- is_hybrid_spec.
    destruct (is_hybrid mode); split; intros H.
    + discriminate.
    + exfalso. apply H. reflexivity.
    + discriminate.
    + reflexivity.
  - intros H. unfold mode, dict_get. rewrite H. reflexivity.
Qed.

End ApiFacts.

(** ** Config.validate *)
Module ConfigFacts.
Import Config.

(** C9 (as amended). [validate] reads the keys captured at import time
    and tests their truthiness: it raises [ValueError] exactly when one of
    them is empty (unset, or set to the empty string) and returns [None]
    exactly when both are non-empty. *)
Theorem validate_iff_nonempty (env : environ) :
  (validate (load env) = inr tt <->
     getenv env "PINECONE_API_KEY" "" <> "" /\ getenv env "ANTHROPIC_API_KEY" "" <> "")
  /\ ((exists msg, validate (load env) = inl (ValueError msg)) <->
     getenv env "PINECONE_API_KEY" "" = "" \/ getenv env "ANTHROPIC_API_KEY" "" = "").
Proof.
  unfold validate, load; simpl.
  destruct (String.eqb_spec (getenv env "PINECONE_API_KEY" "") "") as [Hp | Hp];
  destruct (String.eqb_spec (getenv env "ANTHROPIC_API_KEY" "") "") as [Ha | Ha];
  split; split; intros H;
  first [ discriminate H | reflexivity | exact (conj Hp Ha)
        | (eexists; reflexivity) | (left; exact Hp) | (right; exact Ha)
        | (destruct H as [? H']; discriminate H')
        | (destruct H as [H1 H2]; contradiction)
        | (exfalso; destruct H as [H | H]; contradiction) ].
Qed.

(** C9 fails as stated: with both variables set, one of them to the empty
    string, [validate] still raises. *)
Lemma validate_raises_on_empty_set_key :
  let env := [("PINECONE_API_KEY", ""); ("ANTHROPIC_API_KEY", "sk-ant-key")] in
  In "PINECONE_API_KEY" (map fst env) /\ In "ANTHROPIC_API_KEY" (map fst env)
  /\ validate (load env) = inl (ValueError "PINECONE_API_KEY environment variable is not set").
Proof. simpl. split; [left; reflexivity | split; [right; left; reflexivity | reflexivity]]. Qed.

End ConfigFacts.

(** ** Context building and the filter-only answer *)
Module LlmGenerationFacts.
Import LlmGeneration.

Lemma str_append_assoc (a b c : string) : (a ++ b) ++ c = a ++ (b ++ c).
Proof. induction a as [|x a IH]; simpl; [reflexivity | rewrite IH; reflexivity]. Qed.

Lemma str_append_nil_r (a : string) : a ++ "" = a.
Proof. induction a as [|x a IH]; simpl; [reflexivity | rewrite IH; reflexivity]. Qed.

(** The blocks appended by the loop, the first one at position [i]. *)
Fixpoint blocks_from (i : nat) (ms : list RetrievalMatch) : list string :=
  match ms with
  | [] => []
  | m :: rest => render_match i m :: blocks_from (S i) rest
  end.

Definition concat_blocks (bs : list string) : string := fold_right String.append "" bs.

Lemma context_loop_blocks ms : forall i acc,
  context_loop i ms acc = acc ++ concat_blocks (blocks_from i ms).
Proof.
  induction ms as [|m ms IH]; intros i acc; simpl.
  - rewrite str_append_nil_r. reflexivity.
  - rewrite IH, str_append_assoc. reflexivity.
Qed.

Lemma length_blocks_from ms : forall i, List.length (blocks_from i ms) = List.length ms.
Proof. induction ms as [|m ms IH]; intros i; simpl; [reflexivity | rewrite IH; reflexivity]. Qed.

Lemma nth_error_blocks_from ms : forall i j m,
  nth_error ms j = Some m -> nth_error (blocks_from i ms) j = Some (render_match (i + j) m).
Proof.
  induction ms as [|m' ms IH]; intros i j m H; [destruct j; discriminate|].
  destruct j as [|j]; simpl in *.
  - injection H as ->. rewrite Nat.add_0_r. reflexivity.
  - rewrite (IH (S i) j m H). rewrite Nat.add_succ_r. reflexivity.
Qed.

Lemma render_match_header i m : exists rest,
  render_match i m = "[Chunk " ++ py_str_int (Z.of_nat (i + 1)) ++ "]" ++ nl ++ rest.
Proof.
  unfold render_match. cbv zeta.
  destruct (tags_of _); eexists; rewrite !str_append_assoc; reflexivity.
Qed.

Lemma py_slice_to_nonneg {A} (xs : list A) k :
  (0 <= k)%Z -> py_slice_to xs k = firstn (Z.to_nat k) xs.
Proof. intros Hk. unfold py_slice_to. apply Z.leb_le in Hk. rewrite Hk. reflexivity. Qed.

(** C4 (as amended). On no match the result is the fixed message.
    Without [max_chunks], a non-empty list gives the concatenation of one
    block per match; with [max_chunks = k >= 0] it gives one block per
    match among the first [k], so [min(k, length)] blocks. The block of
    the [j]-th kept match (from 0) is its rendering, headed
    ["[Chunk j+1]"]. *)
Theorem build_context_blocks (ms : list RetrievalMatch) :
  build_context_string ms None
    = match ms with
      | [] => "No documents were retrieved."
      | _ => concat_blocks (blocks_from 0 ms)
      end
  /\ (forall k, (0 <= k)%Z ->
        build_context_string ms (Some k)
          = match ms with
            | [] => "No documents were retrieved."
            | _ => concat_blocks (blocks_from 0 (firstn (Z.to_nat k) ms))
            end
        /\ List.length (blocks_from 0 (firstn (Z.to_nat k) ms))
           = Nat.min (Z.to_nat k) (List.length ms))
  /\ List.length (blocks_from 0 ms) = List.length ms
  /\ (forall kept j m, nth_error kept j = Some m ->
        nth_error (blocks_from 0 kept) j = Some (render_match j m))
  /\ (forall i m, exists rest,
        render_match i m = "[Chunk " ++ py_str_int (Z.of_nat (i + 1)) ++ "]" ++ nl ++ rest).
Proof.
  split; [|split; [|split; [|split]]].
  - destruct ms as [|m ms]; [reflexivity|].
    unfold build_context_string. rewrite context_loop_blocks. reflexivity.
  - intros k Hk. split.
    + destruct ms as [|m ms]; [reflexivity|].
      unfold build_context_string. rewrite context_loop_blocks, (py_slice_to_nonneg _ k Hk).
      reflexivity.
    + rewrite length_blocks_from, length_firstn. reflexivity.
  - apply length_blocks_from.
  - intros kept j m H. apply (nth_error_blocks_from kept 0 j m H).
  - apply render_match_header.
Qed.

(** C4 fails as stated for a negative limit: with [max_chunks = -1] and two
    matches the claim's [min(k, length) = -1] allows no block, yet one
    block, ["[Chunk 1]"], is produced. *)
Lemma build_context_negative_limit :
  let m := mkMatch None None in
  build_context_string [m; m] (Some (-1)%Z) = concat_blocks (blocks_from 0 [m])
  /\ build_context_string [m; m] (Some (-1)%Z) <> ""
  /\ String.prefix "[Chunk 1]" (build_context_string [m; m] (Some (-1)%Z)) = true.
Proof. vm_compute. split; [reflexivity | split; [discriminate | reflexivity]]. Qed.

(** C10. A zero limit on a non-empty list yields the empty string, not
    the no-documents message. *)
Theorem build_context_zero_limit (ms : list RetrievalMatch) :
  ms <> [] -> build_context_string ms (Some 0%Z) = "".
Proof. intros H. destruct ms as [|m ms]; [contradiction | reflexivity]. Qed.

Lemma build_context_zero_limit_witness :
  [mkMatch None (Some 1%Q)] <> []
  /\ build_context_string [mkMatch None (Some 1%Q)] (Some 0%Z) = "".
Proof. split; [discriminate | apply build_context_zero_limit; discriminate]. Defined.

Lemma is_Y_spec o : is_Y o = true <-> o = Some (PStr "Y").
Proof.
  destruct o as [[s | r]|]; simpl; split; intros H; try discriminate.
  - apply String.eqb_eq in H. subst. reflexivity.
  - injection H as ->. reflexivity.
Qed.

(** The four flags, in the order the tags are tested. *)
Definition tag_fields : list (string * string) :=
  [("obligation", "Obligation"); ("penalty", "Penalty");
   ("permission", "Permission"); ("prohibition", "Prohibition")].

(** The optional [Tags:] line of a block. *)
Definition tags_line (tags : list string) : string :=
  match tags with
  | [] => ""
  | _ => "Tags: " ++ String.concat ", " tags ++ nl
  end.

Definition match_metadata (m : RetrievalMatch) : metadata_t :=
  match metadata m with Some d => d | None => [] end.

(** The lines of a block before the optional [Tags:] line. *)
Definition header_lines (i : nat) (m : RetrievalMatch) : string :=
  let md := match_metadata m in
  "[Chunk " ++ py_str_int (Z.of_nat (i + 1)) ++ "]" ++ nl
  ++ "Score: " ++ format_4f (match score m with Some q => q | None => 0%Q end) ++ nl
  ++ "State: " ++ py_str (get md "state" (PStr "N/A")) ++ nl
  ++ "County: " ++ py_str (get md "county" (PStr "N/A")) ++ nl
  ++ "Section: " ++ py_str (get md "section" (PStr "N/A")) ++ nl.

(** The closing [Text:] line of a block. *)
Definition text_line (m : RetrievalMatch) : string :=
  "Text: " ++ dq ++ py_str (get (match_metadata m) "text" (PStr "N/A")) ++ dq ++ nl ++ nl.

(** C5. The tags of a match are the ones whose flag is exactly the
    string ["Y"], listed in the fixed order Obligation, Penalty,
    Permission, Prohibition; its block is the header lines, then a
    [Tags:] line with the comma-joined tags only when there is at least
    one tag, then the text line. *)
Theorem tags_rendering (i : nat) (m : RetrievalMatch) :
  let md := match_metadata m in
  (In "Obligation" (tags_of md) <-> lookup md "obligation" = Some (PStr "Y"))
  /\ (In "Penalty" (tags_of md) <-> lookup md "penalty" = Some (PStr "Y"))
  /\ (In "Permission" (tags_of md) <-> lookup md "permission" = Some (PStr "Y"))
  /\ (In "Prohibition" (tags_of md) <-> lookup md "prohibition" = Some (PStr "Y"))
  /\ tags_of md = map snd (filter (fun kt => is_Y (lookup md (fst kt))) tag_fields)
  /\ render_match i m = header_lines i m ++ tags_line (tags_of md) ++ text_line m
  /\ (tags_line (tags_of md) = "" <-> tags_of md = [])
  /\ (tags_of md <> [] ->
        tags_line (tags_of md) = "Tags: " ++ String.concat ", " (tags_of md) ++ nl).
Proof.
  intros md.
  assert (Hin : forall k t, In (k, t) tag_fields ->
            (In t (tags_of md) <-> lookup md k = Some (PStr "Y"))).
  { intros k t Hkt. rewrite <- is_Y_spec. unfold tags_of.
    simpl in Hkt. destruct Hkt as [H | [H | [H | [H | []]]]]; injection H as <- <-;
    destruct (is_Y (lookup md "obligation")), (is_Y (lookup md "penalty")),
             (is_Y (lookup md "permission")), (is_Y (lookup md "prohibition"));
    simpl; intuition discriminate. }
  split; [|split; [|split; [|split; [|split; [|split; [|split]]]]]].
  - apply Hin. simpl. auto.
  - apply Hin. simpl. auto.
  - apply Hin. simpl. auto 6.
  - apply Hin. simpl. auto 8.
  - unfold tags_of, tag_fields. simpl.
    destruct (is_Y (lookup md "obligation")), (is_Y (lookup md "penalty")),
             (is_Y (lookup md "permission")), (is_Y (lookup md "prohibition"));
    reflexivity.
  - unfold render_match, header_lines, text_line, tags_line, md, match_metadata. cbv zeta.
    destruct (tags_of _); rewrite !str_append_assoc; reflexivity.
  - unfold tags_line. destruct (tags_of md); split; intros H; try reflexivity; discriminate.
  - unfold tags_line. destruct (tags_of md); [contradiction | reflexivity].
Qed.

(** C8. Whatever first text block the LLM returns for the filter-only
    prompt, the answer is the fixed prefix with the total count, followed
    by that text. *)
Theorem filter_only_answer messages_create cfg query_text context_string
    num_total_chunks response_text more :
  messages_create (Config.ANTHROPIC_API_KEY cfg) Config.CLAUDE_MODEL Config.MAX_NEW_TOKENS
    filter_only_system_prompt [("user", filter_only_user_prompt context_string)]
    = inr (response_text :: more) ->
  generate_llm_response_filter_only_search messages_create cfg query_text context_string
    num_total_chunks
  = inr ("Found " ++ py_str_int num_total_chunks
         ++ " laws matching your filters. A full list is available in the generated CSV file."
         ++ nl ++ nl ++ "Here is a quick summary of the first 10 results:" ++ nl ++ nl
         ++ response_text).
Proof.
  intros H. unfold generate_llm_response_filter_only_search. rewrite H. reflexivity.
Qed.

Lemma filter_only_answer_witness :
  let llm : messages_create_t :=
    fun _ _ _ _ _ => inr ["The documents in this sample primarily discuss zoning."] in
  generate_llm_response_filter_only_search llm (Config.mkConfig "pc" "sk") "" "ctx" 42
  = inr ("Found 42 laws matching your filters. A full list is available in the generated CSV file."
         ++ nl ++ nl ++ "Here is a quick summary of the first 10 results:" ++ nl ++ nl
         ++ "The documents in this sample primarily discuss zoning.").
Proof.
  intros llm. exact (filter_only_answer llm (Config.mkConfig "pc" "sk") "" "ctx" 42
                       "The documents in this sample primarily discuss zoning." [] eq_refl).
Defined.

End LlmGenerationFacts.

(** ** The tabular loader *)
Module S3LoaderFacts.
Import S3Loader.
Local Open Scope nat_scope.

(** A file system with nothing in it. *)
Definition empty_fs : local_fs := mkFs (fun _ => []) (fun _ => []).

Lemma prefix_one_char (a : ascii) (s : string) :
  String.prefix (String a EmptyString) s = true <-> exists rest, s = String a rest.
Proof.
  destruct s as [|b s]; simpl.
  - split; [discriminate | intros [rest H]; discriminate].
  - destruct (ascii_dec a b) as [-> | Hab].
    + split; [intros _; exists s; reflexivity | intros _; destruct s; reflexivity].
    + split; [discriminate | intros [rest H]; injection H as Hb; congruence].
Qed.

Lemma is_local_spec bucket :
  is_local bucket = true <->
  exists rest, bucket = "/" ++ rest \/ bucket = "." ++ rest \/ bucket = "~" ++ rest.
Proof.
  unfold is_local. rewrite !orb_true_iff, !prefix_one_char.
  split.
  - intros [[[r H] | [r H]] | [r H]]; exists r; auto.
  - intros [r [H | [H | H]]]; [left; left | left; right | right]; exists r; exact H.
Qed.

Lemma glob_match_spec rel :
  glob_match rel = true <->
  rel <> [] /\ Forall (fun c => hidden c = false) rel
  /\ ends_with ".parquet" (last rel "") = true.
Proof.
  induction rel as [|c rel IH].
  - simpl. split; [discriminate | intros [H _]; contradiction].
  - destruct rel as [|c' rel].
    + simpl. rewrite andb_true_iff, negb_true_iff. split.
      * intros [Hh He]. split; [discriminate | split; [constructor; auto | exact He]].
      * intros (_ & Hf & He). inversion Hf; subst. split; assumption.
    + change (glob_match (c :: c' :: rel)) with (negb (hidden c) && glob_match (c' :: rel)).
      rewrite andb_true_iff, negb_true_iff, IH.
      change (last (c :: c' :: rel) "") with (last (c' :: rel) "").
      split.
      * intros (Hh & _ & Hf & He). split; [discriminate | split; [constructor; assumption | exact He]].
      * intros (_ & Hf & He). inversion Hf; subst.
        split; [assumption | split; [discriminate | split; assumption]].
Qed.

Lemma glob_parquet_spec fs base p :
  has_magic base = false ->
  In p (glob_parquet fs base) <->
  exists rel, In rel (entries_below fs base) /\ p = join_all base rel /\ rel <> []
    /\ Forall (fun c => hidden c = false) rel /\ ends_with ".parquet" (last rel "") = true.
Proof.
  intros Hm. unfold glob_parquet. rewrite Hm. simpl. rewrite app_nil_r, in_map_iff. split.
  - intros (rel & <- & Hin). apply filter_In in Hin. destruct Hin as [Hin Hg].
    apply glob_match_spec in Hg. exists rel. tauto.
  - intros (rel & Hin & -> & Hg). exists rel. split; [reflexivity|].
    apply filter_In. split; [exact Hin|]. apply glob_match_spec. exact Hg.
Qed.

Definition str_le (a b : string) : Prop := String.leb a b = true.

Lemma insert_sorted_hdrel y x l :
  str_le y x -> HdRel str_le y l -> HdRel str_le y (insert_sorted x l).
Proof.
  intros Hyx Hd. destruct l as [|z l]; simpl.
  - constructor. exact Hyx.
  - destruct (String.leb x z); constructor; [exact Hyx|]. inversion Hd; assumption.
Qed.

Lemma insert_sorted_sorted x l : Sorted str_le l -> Sorted str_le (insert_sorted x l).
Proof.
  induction l as [|y l IH]; intros Hs; simpl.
  - repeat constructor.
  - destruct (String.leb x y) eqn:E.
    + constructor; [exact Hs | constructor; exact E].
    + inversion Hs as [|? ? Hs' Hd]; subst. constructor; [apply IH; exact Hs'|].
      apply insert_sorted_hdrel; [|exact Hd].
      destruct (String.leb_total x y) as [H | H]; [congruence | exact H].
Qed.

Lemma insert_sorted_perm x l : Permutation (insert_sorted x l) (x :: l).
Proof.
  induction l as [|y l IH]; simpl; [reflexivity|].
  destruct (String.leb x y); [reflexivity|].
  transitivity (y :: x :: l); [constructor; exact IH | apply perm_swap].
Qed.

Lemma sorted_spec l : Sorted str_le (sorted l) /\ Permutation (sorted l) l.
Proof.
  induction l as [|x l [IHs IHp]]; simpl.
  - split; constructor.
  - split; [apply insert_sorted_sorted; exact IHs|].
    rewrite insert_sorted_perm. constructor. exact IHp.
Qed.

Lemma sorted_nonempty l : l <> [] -> sorted l <> [].
Proof.
  intros Hl Hs. destruct l as [|x l]; [contradiction|].
  pose proof (Permutation_length (proj2 (sorted_spec (x :: l)))) as Hlen.
  rewrite Hs in Hlen. discriminate.
Qed.

(** The listing pages the paging loop goes through from a token: [n]
    requests, ending with the keys of all pages ([Some]) or at a page
    without ["Contents"] ([None]). *)
Inductive listing (lst : lister) (bucket : string) (prefix : option string) :
    option string -> nat -> option (list string) -> Prop :=
| listing_missing tok :
    contents (lst bucket (truthy prefix) (truthy tok)) = None ->
    listing lst bucket prefix tok 1 None
| listing_last tok keys :
    contents (lst bucket (truthy prefix) (truthy tok)) = Some keys ->
    is_truncated (lst bucket (truthy prefix) (truthy tok)) <> Some true ->
    listing lst bucket prefix tok 1 (Some keys)
| listing_next tok keys n rest :
    contents (lst bucket (truthy prefix) (truthy tok)) = Some keys ->
    is_truncated (lst bucket (truthy prefix) (truthy tok)) = Some true ->
    listing lst bucket prefix (next_token (lst bucket (truthy prefix) (truthy tok))) n rest ->
    listing lst bucket prefix tok (S n) (option_map (app keys) rest).

Definition not_found_s3 (bucket : string) (prefix : option string) : exn :=
  FileNotFoundError ("No parquet files found in S3://" ++ bucket ++ "/" ++ py_str_opt prefix).

Lemma list_pages_listing lst bucket prefix tok n r :
  listing lst bucket prefix tok n r -> forall fuel acc, n <= fuel ->
  list_pages fuel lst bucket prefix tok acc
  = Some (match r with
          | Some keys => inr (acc ++ filter (ends_with ".parquet") keys)%list
          | None => inl (not_found_s3 bucket prefix)
          end).
Proof.
  induction 1 as [tok Hc | tok keys Hc Ht | tok keys n rest Hc Ht Hl IH];
    intros fuel acc Hn; (destruct fuel as [|fuel]; [lia|]); simpl.
  - rewrite Hc. reflexivity.
  - rewrite Hc. destruct (is_truncated _) as [[|]|]; [congruence | reflexivity | reflexivity].
  - rewrite Hc, Ht. rewrite (IH fuel _ ltac:(lia)).
    destruct rest as [ks|]; simpl; [|reflexivity].
    rewrite filter_app, app_assoc. reflexivity.
Qed.

(** C6. In Mode B ([single_key] absent) the loader never returns a frame
    built from zero files: with no tabular file discovered it raises
    [FileNotFoundError], for a local location and for a bucket alike. *)
Theorem mode_b_zero_files_not_found fuel expanduser fs lst bucket prefix :
  (forall srcs,
     load_parquet_from_s3 fuel expanduser fs lst bucket prefix None = Loaded srcs ->
     srcs <> [])
  /\ (is_local bucket = true ->
      glob_parquet fs (local_base expanduser bucket prefix) = [] ->
      load_parquet_from_s3 fuel expanduser fs lst bucket prefix None
      = Raised (FileNotFoundError
                  ("No parquet files found in " ++ local_base expanduser bucket prefix)))
  /\ (is_local bucket = false ->
      list_pages fuel lst bucket prefix None [] = Some (inr []) ->
      load_parquet_from_s3 fuel expanduser fs lst bucket prefix None
      = Raised (not_found_s3 bucket prefix))
  /\ (is_local bucket = false ->
      forall e, list_pages fuel lst bucket prefix None [] = Some (inl e) ->
      load_parquet_from_s3 fuel expanduser fs lst bucket prefix None = Raised e
      /\ e = not_found_s3 bucket prefix).
Proof.
  unfold load_parquet_from_s3. simpl truthy.
  split; [|split; [|split]].
  - intros srcs. destruct (is_local bucket).
    + destruct (glob_parquet fs _) as [|f files] eqn:Eg; [discriminate|].
      intros H. injection H as <-. intros Hm. apply map_eq_nil in Hm.
      apply (sorted_nonempty (f :: files)); [discriminate | exact Hm].
    + destruct (list_pages fuel lst bucket prefix None []) as [[e | [|k keys]]|];
        try discriminate.
      intros H. injection H as <-. discriminate.
  - intros Hl Hg. rewrite Hl, Hg. reflexivity.
  - intros Hl Hp. rewrite Hl, Hp. reflexivity.
  - intros Hl e Hp. rewrite Hl, Hp. split; [reflexivity|].
    assert (Gen : forall f tok acc,
      list_pages f lst bucket prefix tok acc = Some (inl e) -> e = not_found_s3 bucket prefix).
    { induction f as [|f IH]; intros tok acc H; simpl in H; [discriminate|].
      destruct (contents _); [|injection H as <-; reflexivity].
      destruct (match is_truncated _ with Some b => b | None => false end).
      - apply (IH _ _ H).
      - discriminate. }
    exact (Gen fuel None [] Hp).
Qed.

Lemma mode_b_zero_files_not_found_witness :
  load_parquet_from_s3 3 (fun s => s) (mkFs (fun _ => [["notes.txt"]]) (fun _ => []))
    (fun _ _ _ => mkResp None None None) "./data" None None
  = Raised (FileNotFoundError "No parquet files found in ./data")
  /\ load_parquet_from_s3 3 (fun s => s) empty_fs
    (fun _ _ _ => mkResp (Some ["a.csv"]) (Some false) None) "my-bucket" (Some "raw") None
  = Raised (not_found_s3 "my-bucket" (Some "raw")).
Proof.
  split.
  - apply (proj1 (proj2 (mode_b_zero_files_not_found 3 (fun s => s) (mkFs (fun _ => [["notes.txt"]]) (fun _ => []))
             (fun _ _ _ => mkResp None None None) "./data" None))); reflexivity.
  - apply (proj1 (proj2 (proj2 (mode_b_zero_files_not_found 3 (fun s => s) empty_fs
             (fun _ _ _ => mkResp (Some ["a.csv"]) (Some false) None) "my-bucket" (Some "raw")))));
      reflexivity.
Defined.

(** C7 (as amended). A location is local exactly when it starts with
    ["/"], ["."] or ["~"]. When [location+prefix] holds no glob wildcard
    ([*], [?], [[]), local Mode B finds every entry below it whose
    relative path has no component starting with ["."] and whose name ends
    in [".parquet"] (glob skips hidden names), and reads them in ascending
    path order. Remote Mode B follows the continuation tokens until a page
    is not truncated and reads the [".parquet"] keys in listing order. *)
Theorem loader_enumeration fuel expanduser fs lst bucket prefix :
  (is_local bucket = true <->
     exists rest, bucket = "/" ++ rest \/ bucket = "." ++ rest \/ bucket = "~" ++ rest)
  /\ (has_magic (local_base expanduser bucket prefix) = false ->
      forall p, In p (glob_parquet fs (local_base expanduser bucket prefix)) <->
        exists rel, In rel (entries_below fs (local_base expanduser bucket prefix))
          /\ p = join_all (local_base expanduser bucket prefix) rel /\ rel <> []
          /\ Forall (fun c => hidden c = false) rel
          /\ ends_with ".parquet" (last rel "") = true)
  /\ (is_local bucket = true ->
      glob_parquet fs (local_base expanduser bucket prefix) <> [] ->
      exists files,
        load_parquet_from_s3 fuel expanduser fs lst bucket prefix None
          = Loaded (map LocalFile files)
        /\ Permutation files (glob_parquet fs (local_base expanduser bucket prefix))
        /\ Sorted str_le files)
  /\ (is_local bucket = false -> forall n keys,
      listing lst bucket prefix None n (Some keys) -> n <= fuel ->
      filter (ends_with ".parquet") keys <> [] ->
      load_parquet_from_s3 fuel expanduser fs lst bucket prefix None
      = Loaded (map (S3Object bucket) (filter (ends_with ".parquet") keys))).
Proof.
  split; [apply is_local_spec|].
  split; [intros Hm p; apply glob_parquet_spec; exact Hm|].
  unfold load_parquet_from_s3. simpl truthy.
  split.
  - intros Hl Hne. rewrite Hl.
    destruct (glob_parquet fs _) as [|f files] eqn:Eg; [contradiction|].
    exists (sorted (f :: files)). split; [reflexivity|].
    destruct (sorted_spec (f :: files)) as [Hs Hp]. split; assumption.
  - intros Hl n keys Hlist Hn Hne. rewrite Hl.
    rewrite (list_pages_listing _ _ _ _ _ _ Hlist fuel [] Hn). simpl.
    destruct (filter _ keys); [contradiction | reflexivity].
Qed.

Lemma loader_enumeration_witness :
  let lst : lister := fun _ _ tok =>
    match tok with
    | None => mkResp (Some ["raw/a.parquet"; "raw/readme.md"]) (Some true) (Some "t1")
    | Some _ => mkResp (Some ["raw/b.parquet"]) (Some false) None
    end in
  load_parquet_from_s3 5 (fun s => s) empty_fs lst "my-bucket" (Some "raw") None
  = Loaded [S3Object "my-bucket" "raw/a.parquet"; S3Object "my-bucket" "raw/b.parquet"].
Proof.
  intros lst.
  assert (Hl : listing lst "my-bucket" (Some "raw") None 2
                 (Some (["raw/a.parquet"; "raw/readme.md"] ++ ["raw/b.parquet"])%list)).
  { apply (listing_next _ _ _ None ["raw/a.parquet"; "raw/readme.md"] 1 (Some ["raw/b.parquet"]));
      [reflexivity | reflexivity |].
    apply listing_last; [reflexivity | discriminate]. }
  exact (proj2 (proj2 (proj2 (loader_enumeration 5 (fun s => s) empty_fs lst
           "my-bucket" (Some "raw")))) eq_refl 2 _ Hl ltac:(lia) ltac:(discriminate)).
Defined.

(** C7 fails as stated. A local [.parquet] file with a hidden name, or
    inside a hidden directory, is not enumerated; with only such files the
    load even fails with [FileNotFoundError]. A location holding a glob
    wildcard is a pattern: for ["./d[1]"] glob searches the directory
    ["./d1"] it matches, not the directory named ["./d[1]"]. *)
Lemma local_enumeration_counterexample :
  let fs := mkFs (fun _ => [[".archive.parquet"]; [".cache"; "part-0.parquet"]]) (fun _ => []) in
  let fs2 := mkFs (fun d => if String.eqb d "./d[1]" then [["a.parquet"]]
                            else if String.eqb d "./d1" then [["b.parquet"]] else [])
                  (fun pat => if String.eqb pat "./d[1]" then ["./d1"] else []) in
  Forall (fun rel => ends_with ".parquet" (last rel "") = true) (entries_below fs "./data")
  /\ load_parquet_from_s3 0 (fun s => s) fs (fun _ _ _ => mkResp None None None)
       "./data" None None
     = Raised (FileNotFoundError "No parquet files found in ./data")
  /\ entries_below fs2 "./d[1]" = [["a.parquet"]]
  /\ load_parquet_from_s3 0 (fun s => s) fs2 (fun _ _ _ => mkResp None None None)
       "./d[1]" None None
     = Loaded [LocalFile "./d1/b.parquet"].
Proof. split; [repeat constructor | split; [reflexivity | split; reflexivity]]. Qed.

End S3LoaderFacts.

(** * Further properties of [embed_sparse] *)

Module EmbedSparseExtra.
Import EmbedSparse.
Import EmbedSparseFacts.
Local Open Scope nat_scope.

(** The items of a successful embed call. *)
Definition items_of (o : outcome) : list item :=
  match o with inr r => r | inl _ => [] end.

(** [all_chunks[j*b : j*b + b]], the texts of the [j]-th batch. *)
Definition batch_of (texts : list string) (b j : nat) : list string :=
  firstn b (skipn (j * b) texts).

(** The number of batches: [len(range(0, n, b))]. *)
Definition n_batches (n b : nat) : nat := (n + b - 1) / b.

Lemma column_missing df c : ~ In c (map fst df) -> column df c = inl (ColumnNotFoundError c).
Proof.
  induction df as [|[c' xs] df IH]; intros Hn; simpl; [reflexivity|].
  destruct (String.eqb_spec c c') as [-> | _].
  - exfalso. apply Hn. left. reflexivity.
  - apply IH. intros H. apply Hn. right. exact H.
Qed.

Lemma py_range0_pos n bs :
  (0 < bs)%Z -> py_range0 n bs = inr (map (fun k => k * Z.to_nat bs) (seq 0 (n_batches n (Z.to_nat bs)))).
Proof.
  intros H. unfold py_range0.
  rewrite (proj2 (Z.eqb_neq bs 0) ltac:(lia)), (proj2 (Z.ltb_ge bs 0) ltac:(lia)). reflexivity.
Qed.

Lemma n_batches_bounds n b : 0 < b -> n <= n_batches n b * b /\ n_batches n b * b < n + b.
Proof.
  intros Hb. unfold n_batches. split; [apply range_reaches_end; exact Hb|].
  pose proof (Nat.div_mod (n + b - 1) b ltac:(lia)) as Hdm. lia.
Qed.

Lemma flat_map_ext_in {A B} (f g : A -> list B) (l : list A) :
  (forall a, In a l -> f a = g a) -> flat_map f l = flat_map g l.
Proof.
  induction l as [|a l IH]; intros H; simpl; [reflexivity|].
  rewrite (H a (or_introl eq_refl)), IH; [reflexivity|]. intros x Hx. apply H. right. exact Hx.
Qed.

Lemma flat_map_map_comp {A B C} (f : B -> list C) (g : A -> B) (l : list A) :
  flat_map f (map g l) = flat_map (fun x => f (g x)) l.
Proof. induction l as [|a l IH]; simpl; [reflexivity | rewrite IH; reflexivity]. Qed.

Section Success.
Variables (provider : provider_t) (model : string).
Hypothesis provider_ok : forall n texts, exists r, provider n model texts = inr r.

Lemma retry_loop_first_try batch result st :
  retry_loop provider model batch (seq 0 max_retries) 1 result st
  = (inr (items_of (provider (calls st) model batch)), count_call st).
Proof.
  destruct (provider_ok (calls st) batch) as [r Hr].
  change (seq 0 max_retries) with (0 :: seq 1 4).
  rewrite (retry_loop_success provider model batch result 0 (seq 1 4) 1%Q st r Hr), Hr.
  reflexivity.
Qed.

Lemma batch_loop_effects all_chunks b delay :
  Z.ltb (Qnum delay) 0 = false -> forall starts result st acc,
  snd (batch_loop provider model all_chunks b delay starts result st acc)
  = mkSt (calls st + List.length starts) (sleeps st ++ repeat delay (List.length starts))%list.
Proof.
  intros Hd. induction starts as [|i starts IH]; intros result st acc.
  - simpl. rewrite Nat.add_0_r, app_nil_r. destruct st; reflexivity.
  - cbn [batch_loop]. rewrite retry_loop_first_try. unfold time_sleep. rewrite Hd, IH. simpl.
    rewrite <- app_assoc, Nat.add_succ_r. reflexivity.
Qed.

Lemma batch_loop_results all_chunks b delay :
  Z.ltb (Qnum delay) 0 = false -> forall m j result st acc,
  fst (batch_loop provider model all_chunks b delay (map (fun k => k * b) (seq j m)) result st acc)
  = inr (acc ++ flat_map (fun k => map to_record
            (items_of (provider (calls st + (k - j)) model (batch_of all_chunks b k)))) (seq j m))%list.
Proof.
  intros Hd. induction m as [|m IH]; intros j result st acc.
  - simpl. rewrite app_nil_r. reflexivity.
  - cbn [seq map batch_loop]. rewrite retry_loop_first_try. unfold time_sleep.
    rewrite Hd, IH.
    cbn [flat_map]. rewrite Nat.sub_diag, Nat.add_0_r, <- app_assoc. unfold batch_of.
    do 3 f_equal. apply flat_map_ext_in. intros k Hk. apply in_seq in Hk.
    change (calls (sleep delay (count_call st))) with (S (calls st)).
    replace (S (calls st) + (k - S j)) with (calls st + (k - j)) by lia. reflexivity.
Qed.

End Success.

(** The retry loop always ends on its last attempt at the latest. *)
Lemma retry_loop_result_irrelevant provider model batch : forall n a d st r1 r2,
  a + n = max_retries -> 0 < n ->
  retry_loop provider model batch (seq a n) d r1 st
  = retry_loop provider model batch (seq a n) d r2 st.
Proof.
  induction n as [|n IH]; intros a d st r1 r2 Han Hn; [lia|].
  simpl. destruct (provider (calls st) model batch) as [e|r]; [|reflexivity].
  destruct (should_retry e a) eqn:Hs; [|reflexivity].
  destruct n as [|n].
  - rewrite should_retry_stop in Hs; [discriminate | right; lia].
  - apply IH; lia.
Qed.

(** Invalid arguments: a missing text column raises [ColumnNotFoundError],
    [requests_per_minute = 0] raises [ZeroDivisionError] and
    [batch_size = 0] raises [ValueError] (from [range]); each is raised
    before any embed call or sleep, so the state is left unchanged. *)
Theorem embed_sparse_argument_errors provider df text_col model batch_size rpm st :
  (~ In text_col (map fst df) ->
     embed_sparse provider df text_col model batch_size rpm st
     = (inl (ColumnNotFoundError text_col), st))
  /\ (forall texts, column df text_col = inr texts ->
        (rpm = 0%Z -> embed_sparse provider df text_col model batch_size rpm st
                      = (inl ZeroDivisionError, st))
        /\ (rpm <> 0%Z -> batch_size = 0%Z ->
              embed_sparse provider df text_col model batch_size rpm st = (inl ValueError, st))).
Proof.
  split.
  - intros Hn. unfold embed_sparse. rewrite (column_missing df text_col Hn). reflexivity.
  - intros texts Hcol. unfold embed_sparse. rewrite Hcol. split.
    + intros ->. reflexivity.
    + intros Hr ->. rewrite (proj2 (Z.eqb_neq rpm 0) Hr). reflexivity.
Qed.

(** Nothing to embed: with a non-zero [requests_per_minute], an empty
    text column and a positive [batch_size], or any column and a negative
    [batch_size] (an empty [range]), give an empty result with no embed
    call and no sleep. *)
Theorem embed_sparse_nothing_to_embed provider df text_col model batch_size rpm st texts :
  column df text_col = inr texts -> rpm <> 0%Z ->
  (texts = [] /\ (0 < batch_size)%Z) \/ (batch_size < 0)%Z ->
  embed_sparse provider df text_col model batch_size rpm st = (inr [], st).
Proof.
  intros Hcol Hr Hcase. unfold embed_sparse. rewrite Hcol, (proj2 (Z.eqb_neq rpm 0) Hr).
  destruct Hcase as [[-> Hb] | Hb].
  - rewrite py_range0_pos by exact Hb. unfold n_batches. simpl.
    rewrite Nat.div_small by lia. reflexivity.
  - unfold py_range0. rewrite (proj2 (Z.eqb_neq batch_size 0) ltac:(lia)).
    rewrite (proj2 (Z.ltb_lt batch_size 0) Hb). reflexivity.
Qed.

Lemma embed_sparse_nothing_to_embed_witness :
  embed_sparse (fun _ _ _ => inl (PineconeApiException 500)) [("chunk_text", ["a"; "b"])]
    "chunk_text" "pinecone-sparse-english-v0" (-1) 5 (mkSt 0 [])
  = (inr [], mkSt 0 []).
Proof.
  apply (embed_sparse_nothing_to_embed _ _ _ _ (-1) 5 (mkSt 0 []) ["a"; "b"]);
    [reflexivity | discriminate | right; lia].
Defined.

(** Rate limiting: when every embed call succeeds, a column of [N] texts
    with a positive [batch_size = b] and a positive [requests_per_minute]
    makes exactly [m] embed calls, [m] being the number of batches
    ([N <= m*b < N+b]), and sleeps [60/requests_per_minute] seconds after
    every batch, the last one included; the run returns records. *)
Theorem embed_sparse_rate_limit provider df text_col model batch_size rpm st texts :
  column df text_col = inr texts -> (0 < batch_size)%Z -> (0 < rpm)%Z ->
  (forall n b, exists r, provider n model b = inr r) ->
  let b := Z.to_nat batch_size in
  let m := n_batches (List.length texts) b in
  snd (embed_sparse provider df text_col model batch_size rpm st)
    = mkSt (calls st + m) (sleeps st ++ repeat (inject_Z 60 / inject_Z rpm)%Q m)%list
  /\ (exists out, fst (embed_sparse provider df text_col model batch_size rpm st) = inr out)
  /\ List.length texts <= m * b < List.length texts + b.
Proof.
  intros Hcol Hb Hr Hp b m.
  assert (He : embed_sparse provider df text_col model batch_size rpm st
               = batch_loop provider model texts b (inject_Z 60 / inject_Z rpm)%Q
                   (map (fun k => k * b) (seq 0 m)) None st []).
  { unfold embed_sparse. rewrite Hcol, (proj2 (Z.eqb_neq rpm 0) ltac:(lia)).
    rewrite py_range0_pos by exact Hb. reflexivity. }
  rewrite He. split; [|split].
  - rewrite (batch_loop_effects provider model Hp _ _ _ (delay_nonneg _ Hr)), length_map,
      length_seq. reflexivity.
  - rewrite (batch_loop_results provider model Hp _ _ _ (delay_nonneg _ Hr)). eexists.
    reflexivity.
  - apply n_batches_bounds. lia.
Qed.

Lemma embed_sparse_rate_limit_witness :
  snd (embed_sparse (fun _ _ b => inr (map (fun _ => mkItem [1%Z] [1%Q]) b))
         [("chunk_text", ["a"; "b"; "c"])] "chunk_text" "pinecone-sparse-english-v0" 2 5
         (mkSt 0 []))
  = mkSt 2 [inject_Z 60 / inject_Z 5; inject_Z 60 / inject_Z 5]%Q.
Proof.
  exact (proj1 (embed_sparse_rate_limit (fun _ _ b => inr (map (fun _ => mkItem [1%Z] [1%Q]) b))
                  [("chunk_text", ["a"; "b"; "c"])] "chunk_text" "pinecone-sparse-english-v0"
                  2 5 (mkSt 0 []) ["a"; "b"; "c"] eq_refl ltac:(lia) ltac:(lia)
                  (fun _ b => ex_intro _ _ eq_refl))).
Defined.

(** Batching: when every embed call succeeds, a column of texts with a
    positive [batch_size = b] and a positive rate is sent in [m] batches, the [j]-th call
    receiving [texts[j*b : j*b+b]]; these batches are non-empty, hold at
    most [b] texts and concatenate to the column; the result is the
    converted items of the calls, in call order. *)
Theorem embed_sparse_batches provider df text_col model batch_size rpm st texts :
  column df text_col = inr texts -> (0 < batch_size)%Z -> (0 < rpm)%Z ->
  (forall n b, exists r, provider n model b = inr r) ->
  let b := Z.to_nat batch_size in
  let m := n_batches (List.length texts) b in
  fst (embed_sparse provider df text_col model batch_size rpm st)
    = inr (flat_map (fun j => map to_record
             (items_of (provider (calls st + j) model (batch_of texts b j)))) (seq 0 m))
  /\ List.concat (map (batch_of texts b) (seq 0 m)) = texts
  /\ Forall (fun j => 0 < List.length (batch_of texts b j) <= b) (seq 0 m).
Proof.
  intros Hcol Hb Hr Hp b m.
  assert (Hb' : 0 < b) by lia.
  destruct (n_batches_bounds (List.length texts) b Hb') as [Hlo Hhi]. fold m in Hlo, Hhi.
  split; [|split].
  - unfold embed_sparse. rewrite Hcol, (proj2 (Z.eqb_neq rpm 0) ltac:(lia)).
    rewrite py_range0_pos by exact Hb.
    rewrite (batch_loop_results provider model Hp _ _ _ (delay_nonneg _ Hr)). simpl. f_equal.
    apply flat_map_ext_in. intros k _. rewrite Nat.sub_0_r. reflexivity.
  - rewrite <- flat_map_concat_map. unfold batch_of.
    rewrite <- (flat_map_map_comp (fun i => firstn b (skipn i texts)) (fun k => k * b)).
    rewrite slices_cover by (simpl; exact Hlo). reflexivity.
  - apply Forall_forall. intros j Hj. apply in_seq in Hj.
    unfold batch_of. rewrite length_firstn, length_skipn.
    assert (S j * b <= m * b) by (apply Nat.mul_le_mono_r; lia).
    simpl in H. lia.
Qed.

Lemma embed_sparse_batches_witness :
  let p : provider_t := fun n _ b => inr (map (fun _ => mkItem [Z.of_nat n] [1%Q]) b) in
  fst (embed_sparse p [("chunk_text", ["a"; "b"; "c"])] "chunk_text"
         "pinecone-sparse-english-v0" 2 5 (mkSt 0 []))
  = inr [mkSE [0%Z] [1%Q]; mkSE [0%Z] [1%Q]; mkSE [1%Z] [1%Q]].
Proof.
  intros p.
  exact (proj1 (embed_sparse_batches p [("chunk_text", ["a"; "b"; "c"])] "chunk_text"
                  "pinecone-sparse-english-v0" 2 5 (mkSt 0 []) ["a"; "b"; "c"] eq_refl
                  ltac:(lia) ltac:(lia) (fun _ b => ex_intro _ _ eq_refl))).
Defined.

(** A negative [requests_per_minute] gives a negative pause: after the
    first batch is embedded, [time.sleep] raises [ValueError] and the run
    ends, after one embed call and no sleep. *)
Theorem embed_sparse_negative_rate provider df text_col model batch_size rpm st texts r :
  column df text_col = inr texts -> texts <> [] -> (0 < batch_size)%Z -> (rpm < 0)%Z ->
  provider (calls st) model (firstn (Z.to_nat batch_size) texts) = inr r ->
  embed_sparse provider df text_col model batch_size rpm st = (inl ValueError, count_call st).
Proof.
  intros Hcol Hne Hb Hr Hp. unfold embed_sparse.
  rewrite Hcol, (proj2 (Z.eqb_neq rpm 0) ltac:(lia)), py_range0_pos by exact Hb.
  destruct (n_batches_bounds (List.length texts) (Z.to_nat batch_size) ltac:(lia)) as [Hlo _].
  destruct (n_batches (List.length texts) (Z.to_nat batch_size)) as [|m] eqn:Em.
  - destruct texts; [contradiction | simpl in Hlo; lia].
  - cbn [seq map batch_loop]. rewrite Nat.mul_0_l, skipn_O.
    change (seq 0 max_retries) with (0 :: seq 1 4).
    rewrite (retry_loop_success provider model _ None 0 (seq 1 4) 1%Q st r Hp).
    unfold time_sleep.
    assert (Hd : Z.ltb (Qnum (inject_Z 60 / inject_Z rpm)) 0 = true)
      by (destruct rpm as [|q|q]; [lia | lia | reflexivity]).
    rewrite Hd. reflexivity.
Qed.

Lemma embed_sparse_negative_rate_witness :
  embed_sparse (fun _ _ b => inr (map (fun _ => mkItem [1%Z] [1%Q]) b))
    [("chunk_text", ["a"; "b"])] "chunk_text" "pinecone-sparse-english-v0" 1 (-5) (mkSt 0 [])
  = (inl ValueError, mkSt 1 []).
Proof.
  apply (embed_sparse_negative_rate _ _ _ _ 1 (-5) (mkSt 0 []) ["a"; "b"] [mkItem [1%Z] [1%Q]]);
    first [reflexivity | discriminate | lia].
Defined.

(** The Python local [result] that the retry loop of a batch inherits
    from the previous batch never affects it: the loop always leaves
    through [break] or [raise], so a stale result is never reused and the
    unbound case never occurs. *)
Theorem retry_loop_ignores_previous_result provider model batch d st r1 r2 :
  retry_loop provider model batch (seq 0 max_retries) d r1 st
  = retry_loop provider model batch (seq 0 max_retries) d r2 st.
Proof. apply retry_loop_result_irrelevant; unfold max_retries; lia. Qed.

End EmbedSparseExtra.

(** * Further properties of [load_parquet_from_s3] *)

Module S3LoaderExtra.
Import S3Loader.
Import S3LoaderFacts.
Local Open Scope nat_scope.

Lemma truthy_some s : s <> "" -> truthy (Some s) = Some s.
Proof. intros H. simpl. rewrite (proj2 (String.eqb_neq s "") H). reflexivity. Qed.

Lemma path_join_absolute a b : String.prefix "/" b = true -> path_join a b = b.
Proof. intros H. unfold path_join. rewrite H. reflexivity. Qed.

Lemma list_pages_no_token lst bucket prefix keys :
  contents (lst bucket (truthy prefix) None) = Some keys ->
  is_truncated (lst bucket (truthy prefix) None) = Some true ->
  truthy (next_token (lst bucket (truthy prefix) None)) = None ->
  forall fuel tok acc, truthy tok = None -> list_pages fuel lst bucket prefix tok acc = None.
Proof.
  intros Hc Ht Hn. induction fuel as [|fuel IH]; intros tok acc Htok; [reflexivity|].
  simpl. rewrite Htok, Hc, Ht. apply IH. exact Hn.
Qed.

Lemma list_pages_parquet lst bucket prefix : forall fuel tok acc r,
  Forall (fun k => ends_with ".parquet" k = true) acc ->
  list_pages fuel lst bucket prefix tok acc = Some (inr r) ->
  Forall (fun k => ends_with ".parquet" k = true) r.
Proof.
  induction fuel as [|fuel IH]; intros tok acc r Hacc H; simpl in H; [discriminate|].
  destruct (contents _) as [keys|]; [|discriminate].
  assert (Hacc' : Forall (fun k => ends_with ".parquet" k = true)
                    (acc ++ filter (ends_with ".parquet") keys)%list).
  { apply Forall_app. split; [exact Hacc|]. apply Forall_forall. intros k Hk.
    apply filter_In in Hk. apply Hk. }
  destruct (match is_truncated _ with Some b => b | None => false end).
  - exact (IH _ _ _ Hacc' H).
  - injection H as <-. exact Hacc'.
Qed.

(** Mode A ([single_key] non-empty) reads one file and never lists:
    locally the file [os.path.join(base, single_key)], remotely the object
    [single_key] of the bucket, whatever the file system, the listing and
    the fuel; remotely the [prefix] is ignored. *)
Theorem load_single_key fuel fuel' expanduser fs fs' lst lst' bucket prefix prefix' k :
  k <> "" ->
  load_parquet_from_s3 fuel expanduser fs lst bucket prefix (Some k)
    = (if is_local bucket
       then Loaded [LocalFile (path_join (local_base expanduser bucket prefix) k)]
       else Loaded [S3Object bucket k])
  /\ (is_local bucket = false ->
      load_parquet_from_s3 fuel expanduser fs lst bucket prefix (Some k)
      = load_parquet_from_s3 fuel' expanduser fs' lst' bucket prefix' (Some k)).
Proof.
  intros Hk. unfold load_parquet_from_s3. rewrite (truthy_some k Hk).
  split; [reflexivity|]. intros ->. reflexivity.
Qed.

Lemma load_single_key_witness :
  load_parquet_from_s3 0 (fun s => s) empty_fs (fun _ _ _ => mkResp None None None)
    "my-bucket" (Some "raw") (Some "part-0.parquet")
  = Loaded [S3Object "my-bucket" "part-0.parquet"].
Proof. apply (proj1 (load_single_key 0 0 _ _ empty_fs _ (fun _ _ _ => mkResp None None None)
                       "my-bucket" (Some "raw") None "part-0.parquet" ltac:(discriminate))).
Defined.

(** Empty strings count as absent: [single_key = ""] selects Mode B like
    [None], and for a local location [prefix = ""] is the same as no
    prefix. *)
Theorem load_empty_strings_absent fuel expanduser fs lst bucket prefix single_key :
  load_parquet_from_s3 fuel expanduser fs lst bucket prefix (Some "")
    = load_parquet_from_s3 fuel expanduser fs lst bucket prefix None
  /\ (is_local bucket = true ->
      load_parquet_from_s3 fuel expanduser fs lst bucket (Some "") single_key
      = load_parquet_from_s3 fuel expanduser fs lst bucket None single_key).
Proof.
  split; [reflexivity|]. intros Hl. unfold load_parquet_from_s3. rewrite Hl. reflexivity.
Qed.

(** Absolute local paths win: [os.path.join] drops what precedes an
    absolute component, so an absolute [prefix] replaces the location and
    an absolute [single_key] is read as is, whatever location and prefix. *)
Theorem local_absolute_paths fuel expanduser fs lst bucket prefix p k :
  is_local bucket = true ->
  (String.prefix "/" p = true -> local_base expanduser bucket (Some p) = p)
  /\ (String.prefix "/" k = true ->
      load_parquet_from_s3 fuel expanduser fs lst bucket prefix (Some k) = Loaded [LocalFile k]).
Proof.
  intros Hl. split.
  - intros Hp. unfold local_base.
    assert (Hne : p <> "") by (intros ->; discriminate).
    rewrite (truthy_some p Hne). apply path_join_absolute. exact Hp.
  - intros Hk. assert (Hne : k <> "") by (intros ->; discriminate).
    rewrite (proj1 (load_single_key fuel fuel expanduser fs fs lst lst bucket prefix prefix k Hne)).
    rewrite Hl, path_join_absolute by exact Hk. reflexivity.
Qed.

Lemma local_absolute_paths_witness :
  load_parquet_from_s3 0 (fun s => s) empty_fs (fun _ _ _ => mkResp None None None)
    "./data" (Some "raw") (Some "/tmp/x.parquet")
  = Loaded [LocalFile "/tmp/x.parquet"].
Proof.
  apply (proj2 (local_absolute_paths 0 (fun s => s) empty_fs (fun _ _ _ => mkResp None None None)
                  "./data" (Some "raw") "/abs" "/tmp/x.parquet" eq_refl)). reflexivity.
Defined.

(** A truncated first page without a (non-empty) [NextContinuationToken]
    makes the paging loop request the first page again forever: the load
    never finishes, whatever the fuel. *)
Theorem remote_listing_loops_without_token fuel expanduser fs lst bucket prefix keys :
  is_local bucket = false ->
  contents (lst bucket (truthy prefix) None) = Some keys ->
  is_truncated (lst bucket (truthy prefix) None) = Some true ->
  truthy (next_token (lst bucket (truthy prefix) None)) = None ->
  load_parquet_from_s3 fuel expanduser fs lst bucket prefix None = Diverges.
Proof.
  intros Hl Hc Ht Hn. unfold load_parquet_from_s3. rewrite Hl. simpl truthy.
  rewrite (list_pages_no_token lst bucket prefix keys Hc Ht Hn fuel None [] eq_refl).
  reflexivity.
Qed.

Lemma remote_listing_loops_without_token_witness :
  load_parquet_from_s3 10 (fun s => s) empty_fs
    (fun _ _ _ => mkResp (Some ["a.parquet"]) (Some true) (Some "")) "my-bucket" None None
  = Diverges.
Proof.
  apply (remote_listing_loops_without_token 10 (fun s => s) empty_fs
           (fun _ _ _ => mkResp (Some ["a.parquet"]) (Some true) (Some "")) "my-bucket" None
           ["a.parquet"]); reflexivity.
Defined.

(** A later page without ["Contents"] aborts the whole remote load with
    [FileNotFoundError], even when earlier pages listed parquet keys. *)
Theorem remote_missing_contents_aborts fuel expanduser fs lst bucket prefix keys :
  is_local bucket = false -> 2 <= fuel ->
  contents (lst bucket (truthy prefix) None) = Some keys ->
  is_truncated (lst bucket (truthy prefix) None) = Some true ->
  contents (lst bucket (truthy prefix)
              (truthy (next_token (lst bucket (truthy prefix) None)))) = None ->
  load_parquet_from_s3 fuel expanduser fs lst bucket prefix None
  = Raised (not_found_s3 bucket prefix).
Proof.
  intros Hl Hf Hc Ht Hm. unfold load_parquet_from_s3. rewrite Hl. simpl truthy.
  assert (Hlst : listing lst bucket prefix None 2 (option_map (app keys) None)).
  { apply listing_next; [exact Hc | exact Ht|]. apply listing_missing. exact Hm. }
  rewrite (list_pages_listing lst bucket prefix None 2 _ Hlst fuel [] Hf). reflexivity.
Qed.

Lemma remote_missing_contents_aborts_witness :
  let lst : lister := fun _ _ tok =>
    match tok with
    | None => mkResp (Some ["a.parquet"]) (Some true) (Some "t1")
    | Some _ => mkResp None None None
    end in
  load_parquet_from_s3 5 (fun s => s) empty_fs lst "my-bucket" None None
  = Raised (not_found_s3 "my-bucket" None).
Proof.
  intros lst.
  apply (remote_missing_contents_aborts 5 (fun s => s) empty_fs lst "my-bucket" None
           ["a.parquet"]); first [reflexivity | lia].
Defined.

(** Remote Mode B loads only objects of the bucket whose key ends in
    [".parquet"], and at least one. *)
Theorem remote_loads_only_parquet fuel expanduser fs lst bucket prefix srcs :
  is_local bucket = false ->
  load_parquet_from_s3 fuel expanduser fs lst bucket prefix None = Loaded srcs ->
  srcs <> []
  /\ Forall (fun s => exists k, s = S3Object bucket k /\ ends_with ".parquet" k = true) srcs.
Proof.
  intros Hl H. unfold load_parquet_from_s3 in H. rewrite Hl in H. simpl truthy in H.
  destruct (list_pages fuel lst bucket prefix None []) as [[e | [|k ks]]|] eqn:Ep;
    try discriminate.
  injection H as <-. split; [discriminate|].
  pose proof (list_pages_parquet lst bucket prefix fuel None [] _ (Forall_nil _) Ep) as Hf.
  apply Forall_forall. intros s Hs. change (In s (map (S3Object bucket) (k :: ks))) in Hs.
  apply in_map_iff in Hs. destruct Hs as (k' & <- & Hk').
  exists k'. split; [reflexivity|]. exact (proj1 (Forall_forall _ _) Hf k' Hk').
Qed.

Lemma remote_loads_only_parquet_witness :
  let lst : lister := fun _ _ _ => mkResp (Some ["a.parquet"; "b.csv"]) (Some false) None in
  load_parquet_from_s3 3 (fun s => s) empty_fs lst "my-bucket" None None
    = Loaded [S3Object "my-bucket" "a.parquet"]
  /\ Forall (fun s => exists k, s = S3Object "my-bucket" k /\ ends_with ".parquet" k = true)
       [S3Object "my-bucket" "a.parquet"].
Proof.
  intros lst. split; [reflexivity|].
  exact (proj2 (remote_loads_only_parquet 3 (fun s => s) empty_fs lst "my-bucket" None
                  [S3Object "my-bucket" "a.parquet"] eq_refl eq_refl)).
Defined.

End S3LoaderExtra.

(** * Further properties of the LLM generation helpers *)

Module LlmGenerationExtra.
Import LlmGeneration.
Import LlmGenerationFacts.

Lemma build_context_nonempty m ms max_chunks :
  build_context_string (m :: ms) max_chunks
  = concat_blocks (blocks_from 0 (match max_chunks with
                                  | None => m :: ms
                                  | Some k => py_slice_to (m :: ms) k
                                  end)).
Proof. unfold build_context_string. rewrite context_loop_blocks. reflexivity. Qed.

Lemma prefix_app (p s : string) : String.prefix p (p ++ s) = true.
Proof.
  induction p as [|a p IH]; simpl; [destruct s; reflexivity|].
  destruct (ascii_dec a a) as [_ | H]; [exact IH | contradiction].
Qed.

(** A limit at least the number of matches changes nothing: the output is
    the one without [max_chunks]. *)
Theorem build_context_large_limit (ms : list RetrievalMatch) (k : Z) :
  (Z.of_nat (List.length ms) <= k)%Z ->
  build_context_string ms (Some k) = build_context_string ms None.
Proof.
  intros Hk. destruct ms as [|m ms]; [reflexivity|].
  rewrite !build_context_nonempty, py_slice_to_nonneg by lia.
  rewrite firstn_all2 by lia. reflexivity.
Qed.

Lemma build_context_large_limit_witness :
  build_context_string [mkMatch None (Some 1%Q)] (Some 5%Z)
  = build_context_string [mkMatch None (Some 1%Q)] None.
Proof. apply build_context_large_limit. simpl. lia. Defined.

(** The no-documents message comes only from an empty list of matches:
    for a non-empty list the output is the empty string when the limit
    keeps no match, and otherwise starts with ["[Chunk 1]"]. *)
Theorem build_context_message_iff_empty (ms : list RetrievalMatch) (max_chunks : option Z) :
  (build_context_string ms max_chunks = "No documents were retrieved." <-> ms = [])
  /\ (ms <> [] ->
      let kept := match max_chunks with None => ms | Some k => py_slice_to ms k end in
      (kept = [] -> build_context_string ms max_chunks = "")
      /\ (kept <> [] -> String.prefix "[Chunk 1]" (build_context_string ms max_chunks) = true)).
Proof.
  assert (Hblk : forall m rest, exists s,
            concat_blocks (blocks_from 0 (m :: rest)) = "[Chunk 1]" ++ s).
  { intros m rest. destruct (render_match_header 0 m) as [r Hr].
    exists (nl ++ r ++ concat_blocks (blocks_from 1 rest)). simpl.
    rewrite Hr. rewrite !str_append_assoc. reflexivity. }
  destruct ms as [|m ms]; split.
  - split; reflexivity.
  - intros H. contradiction.
  - rewrite build_context_nonempty. split; [|discriminate].
    destruct (match max_chunks with None => m :: ms | Some k => py_slice_to (m :: ms) k end)
      as [|m' rest].
    + discriminate.
    + destruct (Hblk m' rest) as [s ->]. discriminate.
  - intros _ kept. rewrite build_context_nonempty. fold kept. split.
    + intros ->. reflexivity.
    + destruct kept as [|m' rest]; [contradiction|]. intros _.
      destruct (Hblk m' rest) as [s ->]. apply prefix_app.
Qed.

(** Both generators make one [messages.create] call with a single user
    message; [generate_llm_response] returns the text of the first content
    block unchanged; a reply without content block raises [IndexError] and
    a client error is re-raised unchanged by both; the filter-only answer
    does not depend on the query text. *)
Theorem llm_reply_handling (messages_create : messages_create_t) cfg query_text query_text'
    context_string n :
  (forall text more,
     messages_create (Config.ANTHROPIC_API_KEY cfg) Config.CLAUDE_MODEL Config.MAX_NEW_TOKENS
       system_prompt [("user", user_prompt query_text context_string)] = inr (text :: more) ->
     generate_llm_response messages_create cfg query_text context_string = inr text)
  /\ (forall r,
     messages_create (Config.ANTHROPIC_API_KEY cfg) Config.CLAUDE_MODEL Config.MAX_NEW_TOKENS
       system_prompt [("user", user_prompt query_text context_string)] = r ->
     (r = inr [] -> generate_llm_response messages_create cfg query_text context_string
                    = inl IndexError)
     /\ (forall e, r = inl e -> generate_llm_response messages_create cfg query_text context_string
                                = inl e))
  /\ (forall r,
     messages_create (Config.ANTHROPIC_API_KEY cfg) Config.CLAUDE_MODEL Config.MAX_NEW_TOKENS
       filter_only_system_prompt [("user", filter_only_user_prompt context_string)] = r ->
     (r = inr [] -> generate_llm_response_filter_only_search messages_create cfg query_text
                      context_string n = inl IndexError)
     /\ (forall e, r = inl e -> generate_llm_response_filter_only_search messages_create cfg
                                  query_text context_string n = inl e))
  /\ generate_llm_response_filter_only_search messages_create cfg query_text context_string n
     = generate_llm_response_filter_only_search messages_create cfg query_text' context_string n.
Proof.
  split; [|split; [|split]].
  - intros text more H. unfold generate_llm_response. rewrite H. reflexivity.
  - intros r H. unfold generate_llm_response. rewrite H.
    split; [intros ->; reflexivity | intros e ->; reflexivity].
  - intros r H. unfold generate_llm_response_filter_only_search. rewrite H.
    split; [intros ->; reflexivity | intros e ->; reflexivity].
  - reflexivity.
Qed.

End LlmGenerationExtra.

(** * Further properties of [Config] *)

Module ConfigExtra.
Import Config.

(** [get_output_path(filename)] raises [FileExistsError] when ["outputs"]
    exists as a file, and [OSError] when it is absent and cannot be
    created; either way nothing changes. Otherwise it returns
    [os.path.join("outputs", filename)], leaves ["outputs"] a directory
    (created if absent), leaves the other entries as they were, and a
    later call changes nothing. The path is ["outputs/" + filename] for a
    relative [filename], and [filename] itself for an absolute one,
    outside ["outputs"]. *)
Theorem get_output_path_behaviour (fs : cwd) (filename : string) :
  (entry_of fs OUTPUT_DIR = Some File ->
     get_output_path fs filename = (inl (FileExistsError "outputs"), fs))
  /\ (entry_of fs OUTPUT_DIR = None -> can_create fs = false ->
      get_output_path fs filename = (inl (OSError "outputs"), fs))
  /\ (entry_of fs OUTPUT_DIR = Some Dir \/ (entry_of fs OUTPUT_DIR = None /\ can_create fs = true) ->
      exists fs', get_output_path fs filename = (inr (S3Loader.path_join OUTPUT_DIR filename), fs')
        /\ entry_of fs' OUTPUT_DIR = Some Dir
        /\ (forall name, name <> OUTPUT_DIR -> entry_of fs' name = entry_of fs name)
        /\ (forall filename', snd (get_output_path fs' filename') = fs'))
  /\ S3Loader.path_join OUTPUT_DIR filename
     = (if String.prefix "/" filename then filename else "outputs/" ++ filename).
Proof.
  split; [|split; [|split]].
  - intros H. unfold get_output_path, makedirs_exist_ok. rewrite H. reflexivity.
  - intros H Hc. unfold get_output_path, makedirs_exist_ok. rewrite H, Hc. reflexivity.
  - intros H. unfold get_output_path, makedirs_exist_ok.
    destruct H as [H | [H Hc]].
    + exists fs. rewrite H. split; [reflexivity | split; [reflexivity | split; [reflexivity|]]].
      intros f'. reflexivity.
    + rewrite H, Hc. exists (mkCwd ((OUTPUT_DIR, Dir) :: entries fs) true).
      split; [reflexivity|]. split; [reflexivity | split].
      * intros name Hn. unfold entry_of. simpl.
        rewrite (proj2 (String.eqb_neq name OUTPUT_DIR) Hn). reflexivity.
      * intros f'. reflexivity.
  - unfold S3Loader.path_join. destruct (String.prefix "/" filename); reflexivity.
Qed.

End ConfigExtra.
